(** * scripts/run_system.py: the heartbeat runner as an interaction tree

    The script configures [logging], then runs one coroutine under
    [asyncio.run]: [main] logs a startup notice and awaits [health_check],
    a [while True] loop that logs the current time and sleeps 30 seconds.
    [main] catches [KeyboardInterrupt] and [Exception] around that loop.

    The program is embedded as an interaction tree over the three primitive
    calls it makes ([datetime.now], the logging handler, [asyncio.sleep]).
    Every primitive answers with an outcome: a value, or an exception raised
    into the caller. An environment decides the outcomes; a fuel-bounded
    executor runs the tree against an environment and records the calls.

    A signal is not a call of the coroutine. What [asyncio.run] does with a
    SIGINT (it cancels the task, and raises [KeyboardInterrupt] once the
    task is done) is in the second executor, [exec_task], and in
    [Runner_run]; [run_process] is the process with the signal that
    reaches it, and [run_script] is the process that no signal reaches. *)

From Stdlib Require Import String Ascii List ZArith Lia Bool Arith PeanoNat Sorted.
From ITree Require Import ITree Eq.Shallow.
Import ListNotations.
Local Open Scope string_scope.

(** ** Python exceptions

    Only the part of the class hierarchy that the two [except] clauses of
    [main] can tell apart. [KeyboardInterrupt], [SystemExit] and
    [asyncio.CancelledError] derive from [BaseException] only; every other
    exception the script can meet derives from [Exception] and is
    represented by its [str()]. *)

Inductive exn : Type :=
| KeyboardInterrupt
| SystemExit (code : Z)
| CancelledError
| Exception (detail : string).

Inductive exn_class : Type :=
| cls_BaseException
| cls_KeyboardInterrupt
| cls_SystemExit
| cls_CancelledError
| cls_Exception.

(** [isinstance e c] *)
Definition isinstance (e : exn) (c : exn_class) : bool :=
  match c, e with
  | cls_BaseException, _ => true
  | cls_KeyboardInterrupt, KeyboardInterrupt => true
  | cls_SystemExit, SystemExit _ => true
  | cls_CancelledError, CancelledError => true
  | cls_Exception, Exception _ => true
  | _, _ => false
  end.

(** [str(e)], as interpolated by [f"System error: {e}"]. *)
Definition str (e : exn) : string :=
  match e with
  | KeyboardInterrupt => ""
  | SystemExit code => ""
  | CancelledError => ""
  | Exception detail => detail
  end.

(** ** [datetime] and [isoformat] *)

Record datetime : Type := mk_datetime {
  year : Z; month : Z; day : Z;
  hour : Z; minute : Z; second : Z; microsecond : Z
}.

Definition digit (d : Z) : ascii := ascii_of_N (Z.to_N (48 + d)).

(** The [w] low-order decimal digits of [n], zero padded: [%0wd]. *)
Fixpoint zpad (w : nat) (n : Z) : string :=
  match w with
  | O => ""
  | S w' => zpad w' (n / 10) ++ String (digit (n mod 10)) ""
  end.

(** [datetime.isoformat()] of a naive datetime:
    [YYYY-MM-DDTHH:MM:SS.ffffff], the fraction left out when it is zero. *)
Definition isoformat (d : datetime) : string :=
  zpad 4 (year d) ++ "-" ++ zpad 2 (month d) ++ "-" ++ zpad 2 (day d)
  ++ "T" ++ zpad 2 (hour d) ++ ":" ++ zpad 2 (minute d) ++ ":" ++ zpad 2 (second d)
  ++ (if Z.eqb (microsecond d) 0 then "" else "." ++ zpad 6 (microsecond d)).

(** Field ranges of a [datetime] object. *)
Definition valid_datetime (d : datetime) : Prop :=
  (1 <= year d <= 9999 /\ 1 <= month d <= 12 /\ 1 <= day d <= 31 /\
   0 <= hour d < 24 /\ 0 <= minute d < 60 /\ 0 <= second d < 60 /\
   0 <= microsecond d < 1000000)%Z.

(** Comparison of naive datetimes: lexicographic on the fields. *)
Definition dt_key (d : datetime) : list Z :=
  [year d; month d; day d; hour d; minute d; second d; microsecond d].

Fixpoint lex_leb (a b : list Z) : bool :=
  match a, b with
  | [], _ => true
  | _ :: _, [] => false
  | x :: a', y :: b' => ((x <? y) || ((x =? y) && lex_leb a' b'))%Z%bool
  end.

Definition dt_leb (a b : datetime) : bool := lex_leb (dt_key a) (dt_key b).

(** ** Logging *)

Inductive level : Type := DEBUG | INFO | WARNING | ERROR | CRITICAL.

Definition levelno (l : level) : Z :=
  match l with
  | DEBUG => 10 | INFO => 20 | WARNING => 30 | ERROR => 40 | CRITICAL => 50
  end%Z.

Definition levelname (l : level) : string :=
  match l with
  | DEBUG => "DEBUG" | INFO => "INFO" | WARNING => "WARNING"
  | ERROR => "ERROR" | CRITICAL => "CRITICAL"
  end.

Record LogRecord : Type := mk_LogRecord {
  asctime : string;
  name : string;
  lvl : level;
  message : string
}.

(** The attribute dictionary of a record, as far as a format can name it. *)
Definition record_attr (r : LogRecord) (key : string) : option string :=
  if String.eqb key "asctime" then Some (asctime r)
  else if String.eqb key "name" then Some (name r)
  else if String.eqb key "levelname" then Some (levelname (lvl r))
  else if String.eqb key "message" then Some (message r)
  else None.

(** [%]-style formatting restricted to [%(key)s]: the scanner copies
    characters, and on [%(] collects the key up to [)s]. *)
Inductive scan : Type :=
| Copy
| Percent
| Key (acc : string)
| Closed (key : string).

Fixpoint percent_format (attr : string -> option string) (st : scan) (fmt : string)
  : option string :=
  match fmt with
  | EmptyString => match st with Copy => Some "" | _ => None end
  | String c rest =>
      match st with
      | Copy =>
          if Ascii.eqb c "%" then percent_format attr Percent rest
          else option_map (String c) (percent_format attr Copy rest)
      | Percent =>
          if Ascii.eqb c "(" then percent_format attr (Key "") rest else None
      | Key acc =>
          if Ascii.eqb c ")" then percent_format attr (Closed acc) rest
          else percent_format attr (Key (acc ++ String c "")) rest
      | Closed key =>
          if Ascii.eqb c "s" then
            match attr key, percent_format attr Copy rest with
            | Some v, Some out => Some (v ++ out)
            | _, _ => None
            end
          else None
      end
  end.

(** [logging.basicConfig(level=logging.INFO, format='...')] *)
Definition basicConfig_level : level := INFO.
Definition basicConfig_format : string :=
  "%(asctime)s - %(name)s - %(levelname)s - %(message)s".

(** [__name__] of a module run as a script. *)
Definition __name__ : string := "__main__".

(** [Formatter.format]: the text of the line the handler writes. *)
Definition format_record (r : LogRecord) : option string :=
  percent_format (record_attr r) Copy basicConfig_format.

(** [Logger.isEnabledFor]: the logger has no level of its own and takes the
    root's. *)
Definition isEnabledFor (l : level) : bool :=
  (levelno basicConfig_level <=? levelno l)%Z.

(** ** Primitive calls

    The calls through which a Python process reaches its environment. The
    first three are the ones the script makes; the others stand for what
    the modules it imports ([os], [time], [sys]) and the builtins would
    allow: reading the process environment, writing a file, sending on the
    network. Each answers with a value or with an exception. *)

Variant pyE : Type -> Type :=
| Datetime_now : pyE (exn + datetime)
| Logging_handle (logger : string) (l : level) (msg : string) : pyE (exn + unit)
| Asyncio_sleep (delay : Z) : pyE (exn + unit)
| Os_getenv (key : string) : pyE (exn + option string)
| File_write (path data : string) : pyE (exn + unit)
| Socket_send (data : string) : pyE (exn + unit).

(** ** Python computations: an interaction tree ending in a value or in a
    raised exception *)

Definition py (A : Type) : Type := itree pyE (exn + A).

Definition py_ret {A} (a : A) : py A := Ret (inr a).

Definition raise {A} (e : exn) : py A := Ret (inl e).

(** Sequencing: an exception of the first part skips the second. *)
Definition propagate {A B} (k : A -> py B) (r : exn + A) : py B :=
  match r with
  | inl e => Ret (inl e)
  | inr a => k a
  end.

Definition py_bind {A B} (m : py A) (k : A -> py B) : py B :=
  ITree.bind m (propagate k).

Definition call {A} (e : pyE (exn + A)) : py A := ITree.trigger e.

Declare Scope py_scope.
Delimit Scope py_scope with py.
Notation "x <- m ;; k" := (py_bind m (fun x => k))
  (at level 61, m at next level, right associativity) : py_scope.
Notation "m ;; k" := (py_bind m (fun _ => k))
  (at level 61, right associativity) : py_scope.

(** [while True: body]. The loop has no [break] and no [return]: the only
    way out is an exception of the body, so its value type is empty. *)
Definition loop_step (r : exn + unit) : itree pyE (unit + (exn + Empty_set)) :=
  match r with
  | inl e => Ret (inr (inl e))
  | inr _ => Ret (inl tt)
  end.

Definition while_True (body : py unit) : py Empty_set :=
  ITree.iter (fun _ : unit => ITree.bind body loop_step) tt.

(** [try: body / except c1: h1 / except c2 as e: h2 ...]: the first clause
    whose class the exception is an instance of handles it; with none, the
    exception goes on to the caller. An exception raised by a handler is
    not offered to the clauses again. *)
Fixpoint select_clause {A} (clauses : list (exn_class * (exn -> py A))) (e : exn)
  : option (py A) :=
  match clauses with
  | [] => None
  | (c, h) :: rest => if isinstance e c then Some (h e) else select_clause rest e
  end.

Definition handle {A} (clauses : list (exn_class * (exn -> py A))) (r : exn + A)
  : py A :=
  match r with
  | inr a => py_ret a
  | inl e =>
      match select_clause clauses e with
      | Some h => h
      | None => raise e
      end
  end.

Definition try_except {A} (body : py A) (clauses : list (exn_class * (exn -> py A)))
  : py A :=
  ITree.bind body (handle clauses).

(** ** The script *)

Definition datetime_now : py datetime := call Datetime_now.

Definition asyncio_sleep (delay : Z) : py unit := call (Asyncio_sleep delay).

(** [logger = logging.getLogger(__name__)]; [logger.info], [logger.error] *)
Definition logger_log (l : level) (msg : string) : py unit :=
  if isEnabledFor l then call (Logging_handle __name__ l msg) else py_ret tt.

Definition logger_info : string -> py unit := logger_log INFO.
Definition logger_error : string -> py unit := logger_log ERROR.

(** [sys.exit(code)] raises [SystemExit]. *)
Definition sys_exit {A} (code : Z) : py A := raise (SystemExit code).

Definition heartbeat_message (now : datetime) : string :=
  "System healthy at " ++ isoformat now.

Definition health_check_body : py unit :=
  (now <- datetime_now ;;
   logger_info (heartbeat_message now) ;;
   asyncio_sleep 30)%py.

Definition health_check : py Empty_set := while_True health_check_body.

Definition starting_message : string := "Starting Trading System...".
Definition shutdown_message : string := "Shutting down Trading System...".
Definition error_message (e : exn) : string := "System error: " ++ str e.

(** The two [except] clauses of [main], in source order. *)
Definition except_clauses : list (exn_class * (exn -> py unit)) :=
  [ (cls_KeyboardInterrupt, fun _ => logger_info shutdown_message);
    (cls_Exception, fun e => (logger_error (error_message e) ;; sys_exit 1)%py) ].

Definition main : py unit :=
  (logger_info starting_message ;;
   try_except (v <- health_check ;; match v : Empty_set with end) except_clauses)%py.

(** How the interpreter ends: through a normal end of the script or a
    [SystemExit] with its code, or on a traceback for any other exception.
    The exit status that the parent of the process sees is [exit_code]
    of it, below: a code cut to eight bits, 1 after a traceback. *)
Inductive exit_status : Type :=
| Exited (code : Z)
| Traceback (e : exn).

Definition interpreter_exit (r : exn + unit) : exit_status :=
  match r with
  | inr _ => Exited 0
  | inl (SystemExit code) => Exited code
  | inl e => Traceback e
  end.

(** [asyncio.run(coro)] as long as no signal arrives: the coroutine runs
    to its end, and what it returns or raises goes to the interpreter. The
    runner's answer to SIGINT is no step of this tree: see [exec_task] and
    [Runner_run]. *)
Definition asyncio_run (coro : py unit) : itree pyE exit_status :=
  ITree.bind coro (fun r => Ret (interpreter_exit r)).

(** [if __name__ == "__main__": asyncio.run(main())] *)
Definition script : itree pyE exit_status :=
  if String.eqb __name__ "__main__" then asyncio_run main else Ret (Exited 0).

(** ** Environments and runs

    Calls are numbered from 0 in the order the process makes them. An
    environment says, for the call with a given number, whether it raises,
    and what the clock, the logging framework's own time stamp and the
    process environment answer. A call that raises has no other effect. *)

Record env : Type := mk_env {
  fault : nat -> option exn;
  clock : nat -> datetime;
  log_time : nat -> string;
  environ : string -> option string
}.

(** One call as it happened: what was asked and the outcome. *)
Inductive call_record : Type :=
| Call_now (r : exn + datetime)
| Call_log (rec : LogRecord) (r : exn + unit)
| Call_sleep (delay : Z) (r : exn + unit)
| Call_getenv (key : string) (r : exn + option string)
| Call_write (path data : string) (r : exn + unit)
| Call_send (data : string) (r : exn + unit).

Definition trace : Type := list call_record.

Definition outcome {A} (ev : env) (k : nat) (a : A) : exn + A :=
  match fault ev k with
  | Some e => inl e
  | None => inr a
  end.

Definition respond (ev : env) (tr : trace) {T} (e : pyE T) : trace * T :=
  let k := length tr in
  match e in pyE T return trace * T with
  | Datetime_now =>
      let r := outcome ev k (clock ev k) in ((tr ++ [Call_now r])%list, r)
  | Logging_handle logger l msg =>
      let r := outcome ev k tt in
      ((tr ++ [Call_log (mk_LogRecord (log_time ev k) logger l msg) r])%list, r)
  | Asyncio_sleep delay =>
      let r := outcome ev k tt in ((tr ++ [Call_sleep delay r])%list, r)
  | Os_getenv key =>
      let r := outcome ev k (environ ev key) in ((tr ++ [Call_getenv key r])%list, r)
  | File_write path data =>
      let r := outcome ev k tt in ((tr ++ [Call_write path data r])%list, r)
  | Socket_send data =>
      let r := outcome ev k tt in ((tr ++ [Call_send data r])%list, r)
  end.

(** The state of a run: the calls made so far, the fuel left, and the
    result once the tree has ended ([None] while it is still running). *)
Record run (R : Type) : Type := mk_run {
  calls : trace;
  fuel_left : nat;
  result : option R
}.

Arguments mk_run {R} _ _ _.
Arguments calls {R} _.
Arguments fuel_left {R} _.
Arguments result {R} _.

(** Each call and each turn of a loop costs one unit of fuel. *)
Fixpoint exec {R} (fuel : nat) (ev : env) (tr : trace) (t : itree pyE R) : run R :=
  match observe t with
  | RetF r => mk_run tr fuel (Some r)
  | TauF t' =>
      match fuel with
      | O => mk_run tr 0 None
      | S f => exec f ev tr t'
      end
  | VisF e k =>
      match fuel with
      | O => mk_run tr 0 None
      | S f => let (tr', x) := respond ev tr e in exec f ev tr' (k x)
      end
  end.

(** The process, started with nothing logged. *)
Definition run_script (fuel : nat) (ev : env) : run exit_status :=
  exec fuel ev [] script.

(** ** Reading a trace *)

(** The records the handler wrote: the logging calls that did not raise. *)
Fixpoint sink (tr : trace) : list LogRecord :=
  match tr with
  | [] => []
  | Call_log rec (inr _) :: rest => rec :: sink rest
  | _ :: rest => sink rest
  end.

(** The delays passed to [asyncio.sleep]. *)
Fixpoint sleeps (tr : trace) : list Z :=
  match tr with
  | [] => []
  | Call_sleep delay _ :: rest => delay :: sleeps rest
  | _ :: rest => sleeps rest
  end.

Definition is_heartbeat (r : LogRecord) : Prop :=
  lvl r = INFO /\ exists now, message r = heartbeat_message now.

(** Decidable recognisers of the three fixed shapes, by message prefix. *)
Definition has_prefix (p s : string) : bool := String.prefix p s.

Definition heartbeat_recordb (r : LogRecord) : bool :=
  has_prefix "System healthy at " (message r).

Definition shutdown_recordb (r : LogRecord) : bool :=
  String.eqb (message r) shutdown_message.

Definition error_recordb (r : LogRecord) : bool :=
  has_prefix "System error: " (message r).

(** A sample environment: a clock that advances 30 seconds per loop turn
    from 2024-01-01T09:00:00.000250 (and stands still at 09:59:30), and an
    optional single raised exception at call [k]. *)
Definition sample_clock (k : nat) : datetime :=
  let s := Z.min 119 (Z.of_nat k / 3) in
  mk_datetime 2024 1 1 9 (s / 2) (30 * (s mod 2)) 250.

Definition quiet : env :=
  mk_env (fun _ => None) sample_clock (fun _ => "2024-01-01 09:00:00,000") (fun _ => None).

Definition raising_at (k : nat) (e : exn) : env :=
  mk_env (fun j => if Nat.eqb j k then Some e else None)
         sample_clock (fun _ => "2024-01-01 09:00:00,000") (fun _ => None).

(** * The process under [asyncio.run]

    [asyncio.run] (Python 3.11) runs the coroutine as the main task of a
    new event loop and, while it runs, puts its own handler in the place of
    the default handler of SIGINT. The first SIGINT does not raise
    [KeyboardInterrupt] in the coroutine: the handler cancels the main
    task. A cancellation is delivered where the coroutine is suspended or
    suspends next, so the [await asyncio.sleep] under way, or else the next
    one, raises [CancelledError]; a call that does not suspend
    ([datetime.now], a logging call) runs to its end. When the task has
    ended cancelled, or has returned with the cancellation still pending,
    [asyncio.run] raises [KeyboardInterrupt] in its caller, outside the
    coroutine and outside its [try]. *)

(** ** SIGINT *)

(** A run meets at most one SIGINT: [Some s] when it arrives during call
    number [s] (for a sleep: while the coroutine is suspended in it). *)
Definition sigint : Type := option nat.

(** [Task.cancel] has been called by the time call number [k] is answered. *)
Definition cancel_requested (sig : sigint) (k : nat) : bool :=
  match sig with
  | Some s => Nat.leb s k
  | None => false
  end.

(** The answer to a call of the main task. Only [asyncio.sleep] suspends
    the coroutine: unless the call fails by itself, a requested
    cancellation is thrown into the coroutine there. *)
Definition respond_task (ev : env) (sig : sigint) (tr : trace) {T} (e : pyE T) : trace * T :=
  match e in pyE T return trace * T with
  | Asyncio_sleep delay =>
      let k := length tr in
      let r := match fault ev k with
               | Some x => inl x
               | None => if cancel_requested sig k then inl CancelledError else inr tt
               end in
      ((tr ++ [Call_sleep delay r])%list, r)
  | Datetime_now => respond ev tr Datetime_now
  | Logging_handle logger l msg => respond ev tr (Logging_handle logger l msg)
  | Os_getenv key => respond ev tr (Os_getenv key)
  | File_write path data => respond ev tr (File_write path data)
  | Socket_send data => respond ev tr (Socket_send data)
  end.

(** The main task run by the event loop. *)
Fixpoint exec_task {R} (fuel : nat) (ev : env) (sig : sigint) (tr : trace) (t : itree pyE R)
  : run R :=
  match observe t with
  | RetF r => mk_run tr fuel (Some r)
  | TauF t' =>
      match fuel with
      | O => mk_run tr 0 None
      | S f => exec_task f ev sig tr t'
      end
  | VisF e k =>
      match fuel with
      | O => mk_run tr 0 None
      | S f => let (tr', x) := respond_task ev sig tr e in exec_task f ev sig tr' (k x)
      end
  end.

(** The handler ran while the task was alive: the signal arrived during
    one of the [made] calls. *)
Definition interrupted (sig : sigint) (made : nat) : bool :=
  match sig with
  | Some s => Nat.ltb s made
  | None => false
  end.

(** [Runner.run]: what [asyncio.run] gives back or raises once the task is
    done. A task that ended on [CancelledError], and a task whose coroutine
    returned while a cancellation was pending, are cancelled tasks: after a
    SIGINT the runner raises [KeyboardInterrupt] for them. Any other
    exception of the coroutine is raised as it is. *)
Definition Runner_run (was_interrupted : bool) (r : exn + unit) : exn + unit :=
  match r with
  | inr _ => if was_interrupted then inl KeyboardInterrupt else r
  | inl CancelledError => if was_interrupted then inl KeyboardInterrupt else r
  | inl _ => r
  end.

(** The process: the script run by the interpreter, with the SIGINT that
    reaches it. *)
Definition run_process (fuel : nat) (ev : env) (sig : sigint) : run exit_status :=
  if String.eqb __name__ "__main__" then
    let r := exec_task fuel ev sig [] main in
    mk_run (calls r) (fuel_left r)
           (option_map
              (fun x => interpreter_exit (Runner_run (interrupted sig (length (calls r))) x))
              (result r))
  else mk_run [] fuel (Some (Exited 0)).

(** ** The exit status of the process

    What the parent of the process sees. The code of a [SystemExit] is cut
    to eight bits; a traceback ends the process with status 1, except that
    for an unhandled [KeyboardInterrupt] the interpreter kills itself with
    SIGINT (a shell reports 130). *)
Inductive process_status : Type :=
| Exit_code (code : Z)
| Killed_by_SIGINT.

Definition exit_code (s : exit_status) : process_status :=
  match s with
  | Exited code => Exit_code (code mod 256)
  | Traceback KeyboardInterrupt => Killed_by_SIGINT
  | Traceback _ => Exit_code 1
  end.

(** ** The configuration of [logging]

    The statements the module runs when it is loaded (lines 13 to 17)
    change the state of the [logging] module: [basicConfig] gives the root
    logger a level and a stream handler, unless the root logger has a
    handler already, in which case it does nothing; [getLogger] enters the
    logger in the table of loggers. *)
Inductive stream : Type := sys_stderr | sys_stdout.

Record Handler : Type := mk_Handler {
  handler_stream : stream;
  handler_format : string
}.

Record logging_state : Type := mk_logging {
  root_level : level;
  root_handlers : list Handler;
  loggers : list string
}.

(** A fresh interpreter: the root logger at WARNING with no handler. *)
Definition fresh_logging : logging_state := mk_logging WARNING [] [].

Definition logging_basicConfig (l : level) (fmt : string) (st : logging_state)
  : logging_state :=
  match root_handlers st with
  | [] => mk_logging l [mk_Handler sys_stderr fmt] (loggers st)
  | _ :: _ => st
  end.

Definition logging_getLogger (who : string) (st : logging_state) : logging_state :=
  if existsb (String.eqb who) (loggers st) then st
  else mk_logging (root_level st) (root_handlers st) (who :: loggers st).

(** Lines 13 to 17. *)
Definition load_module (st : logging_state) : logging_state :=
  logging_getLogger __name__ (logging_basicConfig basicConfig_level basicConfig_format st).

(** [Logger.getEffectiveLevel] of a logger that has no level of its own. *)
Definition getEffectiveLevel (st : logging_state) : level := root_level st.

(** * The vocabulary of the statements *)

Local Open Scope list_scope.

(** Sequencing: the second part runs on what the first left. *)
Definition then_run {A B} (ev : env) (k : A -> itree pyE B) (r : run A) : run B :=
  match result r with
  | Some a => exec (fuel_left r) ev (calls r) (k a)
  | None => mk_run (calls r) 0 None
  end.

(** After one pass of a loop body: go round again, one step later, or
    leave with the result. *)
Definition next_turn {I R} (body : I -> itree pyE (I + R)) (pass : I + R) : itree pyE R :=
  match pass with
  | inr r => Ret r
  | inl i => Tau (ITree.iter body i)
  end.

(** ** A small logic of trace invariants

    [preserves ev I t]: running [t] from a trace that satisfies [I] leaves,
    at every amount of fuel, a trace that satisfies [I]. *)

Definition preserves (ev : env) (I : trace -> Prop) {R} (t : itree pyE R) : Prop :=
  forall fuel tr, I tr -> I (calls (exec fuel ev tr t)).

(** ** One turn of the loop *)

Definition log_call (ev : env) (k : nat) (l : level) (msg : string) : call_record :=
  Call_log (mk_LogRecord (log_time ev k) __name__ l msg) (outcome ev k tt).

(** The calls of one turn that starts as call number [k]: read the clock,
    log the heartbeat, sleep; a call that raises is the last one. *)
Definition iteration (ev : env) (k : nat) : trace :=
  Call_now (outcome ev k (clock ev k)) ::
  match fault ev k with
  | Some _ => []
  | None =>
      log_call ev (S k) INFO (heartbeat_message (clock ev k)) ::
      match fault ev (S k) with
      | Some _ => []
      | None => [Call_sleep 30 (outcome ev (S (S k)) tt)]
      end
  end.

(** How that turn ends: with the first exception raised in it, if any. *)
Definition iteration_result (ev : env) (k : nat) : exn + unit :=
  match fault ev k with
  | Some e => inl e
  | None =>
      match fault ev (S k) with
      | Some e => inl e
      | None => outcome ev (S (S k)) tt
      end
  end.

(** [n] turns in a row, none of which raises. *)
Fixpoint turns (ev : env) (k n : nat) : trace :=
  match n with
  | O => []
  | S n' => iteration ev k ++ turns ev (3 + k) n'
  end.

Definition no_fault (ev : env) (from count : nat) : Prop :=
  forall j, j < count -> fault ev (from + j) = None.

(** ** The script around the loop *)

Definition start_call (ev : env) : call_record := log_call ev 0 INFO starting_message.

(** What [main] and the interpreter do once the loop has ended. *)
Definition after_loop (ev : env) (r : run (exn + Empty_set)) : run exit_status :=
  then_run ev (fun x => Ret (interpreter_exit x))
    (then_run ev (handle except_clauses)
       (then_run ev (propagate (fun v : Empty_set => match v return py unit with end)) r)).

(** ** The order of the steps of a turn *)

(** The three calls of a turn that starts as call number [k], when none of
    them raises: the clock is read, the reading is formatted into the
    heartbeat message and handed to the logging handler, and the coroutine
    sleeps for 30 seconds. *)
Definition tick (ev : env) (k : nat) : trace :=
  [ Call_now (inr (clock ev k));
    Call_log (mk_LogRecord (log_time ev (S k)) "__main__" INFO
                ("System healthy at " ++ isoformat (clock ev k))%string) (inr tt);
    Call_sleep 30 (inr tt) ].

(** ** Every call the script makes *)

(** The messages the script can log, with their levels. *)
Inductive script_message : level -> string -> Prop :=
| sm_starting : script_message INFO "Starting Trading System..."
| sm_heartbeat now : script_message INFO ("System healthy at " ++ isoformat now)%string
| sm_shutdown : script_message INFO "Shutting down Trading System..."
| sm_error e : script_message ERROR ("System error: " ++ str e)%string.

Inductive script_call : call_record -> Prop :=
| sc_now r : script_call (Call_now r)
| sc_log t l msg r :
    script_message l msg -> script_call (Call_log (mk_LogRecord t "__main__" l msg) r)
| sc_sleep r : script_call (Call_sleep 30 r).

(** The messages of the two [except] clauses. *)
Inductive handler_message : level -> string -> Prop :=
| hm_shutdown : handler_message INFO "Shutting down Trading System..."
| hm_error e : handler_message ERROR ("System error: " ++ str e)%string.

(** ** Effects *)

(** The calls that only read the clock, hand a record to the logging
    handler, or suspend the coroutine. *)
Definition clock_log_or_sleep (c : call_record) : Prop :=
  match c with
  | Call_now _ | Call_log _ _ | Call_sleep _ _ => True
  | Call_getenv _ _ | Call_write _ _ _ | Call_send _ _ => False
  end.

(** ** The start of a trace *)

(** A trace that begins: startup line written, clock read, first
    heartbeat written, first sleep. *)
Definition heartbeat_then_sleep (ev : env) (tr : trace) : Prop :=
  exists u rest,
    tr = Call_log (mk_LogRecord (log_time ev 0) "__main__" INFO "Starting Trading System...")
                  (inr tt)
         :: Call_now (inr (clock ev 1))
         :: Call_log (mk_LogRecord (log_time ev 2) "__main__" INFO
                        ("System healthy at " ++ isoformat (clock ev 1))%string) (inr tt)
         :: Call_sleep 30 u
         :: rest.

Definition no_sleep_or_heartbeat_first (ev : env) (tr : trace) : Prop :=
  sleeps tr = [] \/ heartbeat_then_sleep ev tr.

(** ** Reading a heartbeat line back *)

Definition digit_value (c : ascii) : option Z :=
  let n := Z.of_N (N_of_ascii c) in
  if ((48 <=? n) && (n <=? 57))%Z then Some (n - 48)%Z else None.

(** [w] decimal digits, most significant first. *)
Fixpoint read_digits (w : nat) (acc : Z) (s : string) : option (Z * string) :=
  match w with
  | O => Some (acc, s)
  | S w' =>
      match s with
      | String c s' =>
          match digit_value c with
          | Some d => read_digits w' (acc * 10 + d)%Z s'
          | None => None
          end
      | EmptyString => None
      end
  end.

Definition expect (c : ascii) (s : string) : option string :=
  match s with
  | String c' s' => if Ascii.eqb c c' then Some s' else None
  | EmptyString => None
  end.

Definition and_then {A B} (m : option A) (k : A -> option B) : option B :=
  match m with
  | Some a => k a
  | None => None
  end.

(** The inverse of [isoformat]: [YYYY-MM-DDTHH:MM:SS], then nothing or a
    point and six digits. *)
Definition parse_isoformat (s : string) : option datetime :=
  and_then (read_digits 4 0 s) (fun '(y, s) =>
  and_then (expect "-" s) (fun s =>
  and_then (read_digits 2 0 s) (fun '(mo, s) =>
  and_then (expect "-" s) (fun s =>
  and_then (read_digits 2 0 s) (fun '(d, s) =>
  and_then (expect "T" s) (fun s =>
  and_then (read_digits 2 0 s) (fun '(h, s) =>
  and_then (expect ":" s) (fun s =>
  and_then (read_digits 2 0 s) (fun '(mi, s) =>
  and_then (expect ":" s) (fun s =>
  and_then (read_digits 2 0 s) (fun '(sec, s) =>
  match s with
  | EmptyString => Some (mk_datetime y mo d h mi sec 0)
  | String c s =>
      if Ascii.eqb c "." then
        and_then (read_digits 6 0 s) (fun '(us, s) =>
        match s with
        | EmptyString => if Z.eqb us 0 then None else Some (mk_datetime y mo d h mi sec us)
        | String _ _ => None
        end)
      else None
  end))))))))))).

Fixpoint strip_prefix (p s : string) : option string :=
  match p with
  | EmptyString => Some s
  | String a p' =>
      match s with
      | String b s' => if Ascii.eqb a b then strip_prefix p' s' else None
      | EmptyString => None
      end
  end.

(** The timestamp a heartbeat line carries. *)
Definition embedded_timestamp (rec : LogRecord) : option datetime :=
  and_then (strip_prefix "System healthy at " (message rec)) parse_isoformat.

(** The timestamps of the heartbeat lines of a log, in order. *)
Definition stamps (log : list LogRecord) : list datetime :=
  flat_map (fun rec => match embedded_timestamp rec with
                       | Some d => [d]
                       | None => []
                       end) log.

Definition dt_le (a b : datetime) : Prop := dt_leb a b = true.

(** ** Timestamps of successive heartbeats *)

(** A wall clock that is set back one hour between the first and the
    second reading, as local time is at the end of daylight saving. *)
Definition set_back_clock (k : nat) : datetime :=
  if Nat.ltb k 4 then mk_datetime 2024 11 3 1 59 45 0
  else mk_datetime 2024 11 3 1 0 15 0.

Definition set_back : env :=
  mk_env (fun _ => None) set_back_clock (fun _ => "2024-11-03 01:59:45,000") (fun _ => None).

(** The invariant: the timestamps in the log are sorted, each is a reading
    of the clock at a call already made, and each heartbeat line has one. *)
Definition stamps_follow_clock (ev : env) (tr : trace) : Prop :=
  StronglySorted dt_le (stamps (sink tr)) /\
  Forall (fun d => exists i, i < length tr /\ d = clock ev i) (stamps (sink tr)) /\
  length (stamps (sink tr)) = length (filter heartbeat_recordb (sink tr)).

(** ** The order of the log *)

Definition startup_record (ev : env) : LogRecord :=
  mk_LogRecord (log_time ev 0) "__main__" INFO "Starting Trading System...".

(** What the [except] clauses can add to the log: nothing, the shutdown
    notice, or the error line. *)
Definition closing (final : list LogRecord) : Prop :=
  final = [] \/
  (exists t, final = [mk_LogRecord t "__main__" INFO "Shutting down Trading System..."]) \/
  (exists t e, final = [mk_LogRecord t "__main__" ERROR ("System error: " ++ str e)%string]).

(** A log in the order the script writes it: the startup line, then
    heartbeat lines only, then at most one closing line. *)
Definition ordered_log (ev : env) (log : list LogRecord) : Prop :=
  log = [] \/
  exists beats final,
    log = startup_record ev :: beats ++ final /\
    Forall is_heartbeat beats /\ closing final.

Definition startup_then_heartbeats (ev : env) (tr : trace) : Prop :=
  exists beats, sink tr = startup_record ev :: beats /\ Forall is_heartbeat beats.

(** ** How a run can end, and the steps of the turns *)

(** The exceptions the two [except] clauses of [main] take. *)
Definition caught (e : exn) : bool :=
  isinstance e cls_KeyboardInterrupt || isinstance e cls_Exception.

(** An environment in which two calls raise. *)
Definition raising_twice (k : nat) (e : exn) (k' : nat) (e' : exn) : env :=
  mk_env (fun j => if Nat.eqb j k then Some e else if Nat.eqb j k' then Some e' else None)
         sample_clock (fun _ => "2024-01-01 09:00:00,000") (fun _ => None).

(** The readings of the clock that returned. *)
Fixpoint clock_reads (tr : trace) : nat :=
  match tr with
  | [] => 0
  | Call_now (inr _) :: rest => S (clock_reads rest)
  | _ :: rest => clock_reads rest
  end.

(** The heartbeat lines written. *)
Definition heartbeat_lines (tr : trace) : nat :=
  length (filter heartbeat_recordb (sink tr)).

(** Reads, heartbeat lines and sleeps go in step: never a sleep without
    its heartbeat, never a heartbeat without its reading, never a second
    reading before the sleep. *)
Definition in_lockstep (tr : trace) : Prop :=
  length (sleeps tr) <= heartbeat_lines tr /\
  heartbeat_lines tr <= clock_reads tr /\
  clock_reads tr <= S (length (sleeps tr)).

Definition at_loop_head (tr : trace) : Prop :=
  length (sleeps tr) = heartbeat_lines tr /\ heartbeat_lines tr = clock_reads tr.

(** ** The task and the runner *)

Definition then_task {A B} (ev : env) (sig : sigint) (k : A -> itree pyE B) (r : run A)
  : run B :=
  match result r with
  | Some a => exec_task (fuel_left r) ev sig (calls r) (k a)
  | None => mk_run (calls r) 0 None
  end.

(** Two runs of a tree from the same trace that are the same at every
    amount of fuel. *)
Definition same_run (ev1 : env) (sig1 : sigint) (ev2 : env) (sig2 : sigint)
  (tr : trace) {R} (t : itree pyE R) : Prop :=
  forall fuel, exec_task fuel ev1 sig1 tr t = exec_task fuel ev2 sig2 tr t.

(** What [main] does once the loop has ended: the [except] clauses. *)
Definition handling (ev : env) (r : run (exn + Empty_set)) : run (exn + unit) :=
  then_run ev (handle except_clauses)
    (then_run ev (propagate (fun v : Empty_set => match v return py unit with end)) r).

(** What the interpreter makes of the outcome of [main] under the runner. *)
Definition process_exit (sig : sigint) (r : run (exn + unit)) : run exit_status :=
  mk_run (calls r) (fuel_left r)
         (option_map
            (fun x => interpreter_exit (Runner_run (interrupted sig (length (calls r))) x))
            (result r)).

(** Inside the loop the calls go round in threes from call 1 on, so the
    sleeps are the calls whose number is a multiple of 3. The loop under a
    SIGINT runs as it would with no signal in an environment in which the
    first sleep answered after the signal raises [CancelledError]. *)
Definition cancelling (ev : env) (sig : sigint) : env :=
  mk_env (fun k => match fault ev k with
                   | Some e => Some e
                   | None =>
                       if (Nat.leb 1 k && Nat.eqb (k mod 3) 0 && cancel_requested sig k)%bool
                       then Some CancelledError else None
                   end)
         (clock ev) (log_time ev) (environ ev).

(** The number of the first sleep answered after a signal that arrives
    during call [s], when no call fails by itself. *)
Definition cancelled_sleep (s : nat) : nat := 3 * Nat.max 1 ((s + 2) / 3).

(** An environment like [ev] with other variables. *)
Definition with_environ (vars : string -> option string) (ev : env) : env :=
  mk_env (fault ev) (clock ev) (log_time ev) vars.

(** ** Heartbeats and waits *)

(** The two events that pace the loop: a heartbeat line written, and a
    call to sleep with its delay. *)
Inductive beat : Type :=
| Beat
| Wait (delay : Z).

Fixpoint rhythm (tr : trace) : list beat :=
  match tr with
  | [] => []
  | Call_log rec (inr _) :: rest =>
      if heartbeat_recordb rec then Beat :: rhythm rest else rhythm rest
  | Call_sleep delay _ :: rest => Wait delay :: rhythm rest
  | _ :: rest => rhythm rest
  end.

(** The first [n] events of: heartbeat, wait 30, heartbeat, wait 30, ... *)
Fixpoint alternation (n : nat) : list beat :=
  match n with
  | O => []
  | S m => alternation m ++ [if Nat.even m then Beat else Wait 30]
  end.

Definition keeps_time (tr : trace) : Prop := exists n, rhythm tr = alternation n.

Definition beat_due (tr : trace) : Prop := exists m, rhythm tr = alternation (2 * m).

(** * Properties *)

(** ** The executor on the tree constructors *)

Lemma exec_unfold {R} fuel ev tr (t : itree pyE R) :
  exec fuel ev tr t =
  match observe t with
  | RetF r => mk_run tr fuel (Some r)
  | TauF t' =>
      match fuel with
      | O => mk_run tr 0 None
      | S f => exec f ev tr t'
      end
  | VisF e k =>
      match fuel with
      | O => mk_run tr 0 None
      | S f => let (tr', x) := respond ev tr e in exec f ev tr' (k x)
      end
  end.
Proof. destruct fuel; reflexivity. Qed.

Lemma exec_observe {R} fuel ev tr (t u : itree pyE R) :
  observe t = observe u -> exec fuel ev tr t = exec fuel ev tr u.
Proof. intros H. rewrite (exec_unfold _ _ _ t), (exec_unfold _ _ _ u), H. reflexivity. Qed.

Lemma exec_Ret {R} fuel ev tr (r : R) :
  exec fuel ev tr (Ret r) = mk_run tr fuel (Some r).
Proof. rewrite exec_unfold. reflexivity. Qed.

Lemma exec_Tau {R} fuel ev tr (t : itree pyE R) :
  exec (S fuel) ev tr (Tau t) = exec fuel ev tr t.
Proof. reflexivity. Qed.

Lemma exec_trigger {T} fuel ev tr (e : pyE T) :
  exec (S fuel) ev tr (ITree.trigger e) =
  mk_run (fst (respond ev tr e)) fuel (Some (snd (respond ev tr e))).
Proof.
  rewrite exec_unfold. cbn. destruct (respond ev tr e) as [tr' x].
  rewrite exec_Ret. reflexivity.
Qed.

(** Out of fuel, a run is reported with no fuel left. *)
Lemma exec_running {R} fuel ev tr (t : itree pyE R) :
  result (exec fuel ev tr t) = None -> fuel_left (exec fuel ev tr t) = 0.
Proof.
  revert tr t. induction fuel as [|f IH]; intros tr t; rewrite exec_unfold;
    destruct (observe t) as [r|t'|X e k]; cbn; try discriminate; auto.
  destruct (respond ev tr e). apply IH.
Qed.

Lemma exec_fuel_left {R} fuel ev tr (t : itree pyE R) :
  fuel_left (exec fuel ev tr t) <= fuel.
Proof.
  revert tr t. induction fuel as [|f IH]; intros tr t; rewrite exec_unfold;
    destruct (observe t) as [r|t'|X e k]; cbn; auto.
  destruct (respond ev tr e). auto.
Qed.

Lemma exec_bind {A} {B} fuel ev tr (t : itree pyE A) (k : A -> itree pyE B) :
  exec fuel ev tr (ITree.bind t k) = then_run ev k (exec fuel ev tr t).
Proof.
  revert tr t. induction fuel as [|f IH]; intros tr t;
    rewrite (exec_unfold _ _ _ (ITree.bind t k)), (exec_unfold _ _ _ t), observe_bind;
    destruct (observe t) as [r|t'|X e h]; cbn; try reflexivity.
  - apply IH.
  - destruct (respond ev tr e). apply IH.
Qed.

Lemma exec_iter {I} {R} fuel ev tr (body : I -> itree pyE (I + R)) (i : I) :
  exec fuel ev tr (ITree.iter body i) =
  then_run ev (next_turn body) (exec fuel ev tr (body i)).
Proof.
  rewrite <- exec_bind. apply exec_observe.
  apply (observing_observe (unfold_aloop_ body i)).
Qed.

(** ** Rules for trace invariants *)

Section Invariants.
Variable ev : env.
Variable I : trace -> Prop.

Lemma preserves_Ret {R} (r : R) : preserves ev I (Ret r).
Proof. intros fuel tr H. rewrite exec_Ret. exact H. Qed.

Lemma preserves_trigger {T} (e : pyE T) :
  (forall tr, I tr -> I (fst (respond ev tr e))) ->
  preserves ev I (ITree.trigger e).
Proof.
  intros H [|f] tr Htr.
  - rewrite exec_unfold. exact Htr.
  - rewrite exec_trigger. apply H, Htr.
Qed.

Lemma preserves_then {A} {B} (k : A -> itree pyE B) (r : run A) :
  (forall a, preserves ev I (k a)) -> I (calls r) -> I (calls (then_run ev k r)).
Proof.
  intros Hk Hr. unfold then_run. destruct (result r) as [a|]; [apply Hk|]; exact Hr.
Qed.

Lemma preserves_bind {A} {B} (t : itree pyE A) (k : A -> itree pyE B) :
  preserves ev I t -> (forall a, preserves ev I (k a)) ->
  preserves ev I (ITree.bind t k).
Proof.
  intros Ht Hk fuel tr Htr. rewrite exec_bind. apply preserves_then; auto.
Qed.

Lemma preserves_Tau {R} (t : itree pyE R) : preserves ev I t -> preserves ev I (Tau t).
Proof. intros Ht [|f] tr Htr; [exact Htr | rewrite exec_Tau; auto]. Qed.

(** The loop rule: an invariant of the body is an invariant of the loop. *)
Lemma preserves_iter {A} {R} (body : A -> itree pyE (A + R)) :
  (forall a, preserves ev I (body a)) -> forall a, preserves ev I (ITree.iter body a).
Proof.
  intros Hbody a fuel. revert a.
  induction fuel as [fuel IH] using lt_wf_ind. intros a tr Htr.
  rewrite exec_iter. unfold then_run.
  pose proof (Hbody a fuel tr Htr) as Hb.
  pose proof (exec_fuel_left fuel ev tr (body a)) as Hle.
  destruct (exec fuel ev tr (body a)) as [tr' f' [[a'|r]|]]; cbn in *.
  - destruct f' as [|f']; [exact Hb|]. rewrite exec_Tau. apply IH; [lia | exact Hb].
  - rewrite exec_Ret. exact Hb.
  - exact Hb.
Qed.

Lemma preserves_py_bind {A} {B} (m : py A) (k : A -> py B) :
  preserves ev I m -> (forall a, preserves ev I (k a)) -> preserves ev I (py_bind m k).
Proof.
  intros Hm Hk. apply preserves_bind; [exact Hm|].
  intros [e|a]; [apply preserves_Ret | apply Hk].
Qed.

Lemma preserves_while_True (body : py unit) :
  preserves ev I body -> preserves ev I (while_True body).
Proof.
  intros Hb. apply preserves_iter. intros _.
  apply preserves_bind; [exact Hb|]. intros [e|[]]; apply preserves_Ret.
Qed.

Lemma preserves_try_except {A} (body : py A) clauses :
  preserves ev I body ->
  (forall c h e, In (c, h) clauses -> preserves ev I (h e)) ->
  preserves ev I (try_except body clauses).
Proof.
  intros Hb Hh. apply preserves_bind; [exact Hb|].
  intros [e|a]; [|apply preserves_Ret]. cbn.
  induction clauses as [|[c h] rest IH]; cbn.
  - apply preserves_Ret.
  - destruct (isinstance e c).
    + apply (Hh c h e). left. reflexivity.
    + apply IH. intros c' h' e' Hin. apply (Hh c' h' e'). right. exact Hin.
Qed.
End Invariants.

(** The loop rule with a head invariant [P] and a property [J] of every
    trace on the way: if the body, started where [P] holds, keeps [J] and
    re-establishes [P] when it returns, then the loop keeps [J]. *)
Lemma while_True_rule ev (P J : trace -> Prop) (body : py unit) :
  (forall fuel tr, P tr ->
     J (calls (exec fuel ev tr body)) /\
     (result (exec fuel ev tr body) = Some (inr tt) -> P (calls (exec fuel ev tr body)))) ->
  forall fuel tr, P tr -> J (calls (exec fuel ev tr (while_True body))).
Proof.
  intros Hbody fuel. induction fuel as [fuel IH] using lt_wf_ind. intros tr Htr.
  unfold while_True. rewrite exec_iter, exec_bind.
  destruct (Hbody fuel tr Htr) as [HJ HP].
  pose proof (exec_fuel_left fuel ev tr body) as Hle.
  destruct (exec fuel ev tr body) as [tr' f' [[e|[]]|]]; unfold then_run;
    cbn [result calls fuel_left loop_step] in *.
  - rewrite exec_Ret. cbn [result calls fuel_left next_turn]. rewrite exec_Ret. exact HJ.
  - rewrite exec_Ret. cbn [result calls fuel_left next_turn].
    destruct f' as [|f']; [exact HJ|]. rewrite exec_Tau.
    apply IH; [lia | apply HP; reflexivity].
  - exact HJ.
Qed.

(** ** The body of the loop *)

Lemma length_snoc {A} (l : list A) (a : A) : length (l ++ [a]) = S (length l).
Proof. rewrite length_app. cbn. lia. Qed.

Lemma exec_logger_log fuel ev tr l msg :
  isEnabledFor l = true ->
  exec (S fuel) ev tr (logger_log l msg) =
  mk_run (tr ++ [log_call ev (length tr) l msg]) fuel (Some (outcome ev (length tr) tt)).
Proof. intros H. unfold logger_log. rewrite H. unfold call. rewrite exec_trigger. reflexivity. Qed.

Lemma exec_datetime_now fuel ev tr :
  exec (S fuel) ev tr datetime_now =
  mk_run (tr ++ [Call_now (outcome ev (length tr) (clock ev (length tr)))]) fuel
         (Some (outcome ev (length tr) (clock ev (length tr)))).
Proof. unfold datetime_now, call. rewrite exec_trigger. reflexivity. Qed.

Lemma exec_asyncio_sleep fuel ev tr delay :
  exec (S fuel) ev tr (asyncio_sleep delay) =
  mk_run (tr ++ [Call_sleep delay (outcome ev (length tr) tt)]) fuel
         (Some (outcome ev (length tr) tt)).
Proof. unfold asyncio_sleep, call. rewrite exec_trigger. reflexivity. Qed.

Lemma exec_out_of_fuel {R} ev tr (e : pyE R) :
  exec 0 ev tr (ITree.trigger e) = mk_run tr 0 None.
Proof. rewrite exec_unfold. reflexivity. Qed.

(** The body of [health_check] at any fuel: as much of the turn as the
    fuel pays for. *)
Lemma exec_health_check_body fuel ev tr :
  exec fuel ev tr health_check_body =
  mk_run (tr ++ firstn fuel (iteration ev (length tr)))
         (fuel - length (iteration ev (length tr)))
         (if Nat.leb (length (iteration ev (length tr))) fuel
          then Some (iteration_result ev (length tr)) else None).
Proof.
  unfold health_check_body, py_bind, iteration, iteration_result, logger_info.
  rewrite exec_bind.
  destruct fuel as [|f1].
  { unfold datetime_now, call. rewrite exec_out_of_fuel. cbn. rewrite app_nil_r. reflexivity. }
  rewrite exec_datetime_now. unfold then_run. cbn [result calls fuel_left].
  destruct (fault ev (length tr)) as [e|] eqn:F0;
    unfold outcome; rewrite ?F0; cbn [propagate].
  { rewrite exec_Ret. cbn. rewrite firstn_nil, Nat.sub_0_r. reflexivity. }
  rewrite exec_bind.
  destruct f1 as [|f2].
  { unfold logger_log, call. change (isEnabledFor INFO) with true. cbv iota.
    rewrite exec_out_of_fuel. cbn.
    destruct (fault ev (S (length tr))); reflexivity. }
  rewrite exec_logger_log by reflexivity. rewrite length_snoc.
  unfold then_run, log_call. cbn [result calls fuel_left].
  destruct (fault ev (S (length tr))) as [e|] eqn:F1;
    unfold outcome; rewrite ?F1; cbn [propagate].
  { rewrite exec_Ret. cbn. rewrite <- app_assoc. cbn.
    rewrite firstn_nil, Nat.sub_0_r. reflexivity. }
  destruct f2 as [|f3].
  { unfold asyncio_sleep, call. rewrite exec_out_of_fuel.
    cbn. rewrite <- app_assoc. reflexivity. }
  rewrite exec_asyncio_sleep. rewrite !length_snoc.
  cbn. rewrite <- !app_assoc. cbn.
  rewrite firstn_nil, Nat.sub_0_r. reflexivity.
Qed.

(** ** The loop *)

Lemma iteration_length ev k : 1 <= length (iteration ev k) <= 3.
Proof. unfold iteration. destruct (fault ev k), (fault ev (S k)); cbn; lia. Qed.

Lemma iteration_returns ev k :
  iteration_result ev k = inr tt -> length (iteration ev k) = 3.
Proof.
  unfold iteration, iteration_result, outcome.
  destruct (fault ev k), (fault ev (S k)); try discriminate. reflexivity.
Qed.

(** One unfolding of [while True]: the turn, then the loop again. *)
Lemma exec_health_check fuel ev tr :
  exec fuel ev tr health_check =
  let turn := iteration ev (length tr) in
  if Nat.leb (length turn) fuel then
    match iteration_result ev (length tr) with
    | inl e => mk_run (tr ++ turn) (fuel - length turn) (Some (inl e))
    | inr _ =>
        match fuel - length turn with
        | O => mk_run (tr ++ turn) 0 None
        | S f => exec f ev (tr ++ turn) health_check
        end
    end
  else mk_run (tr ++ firstn fuel turn) 0 None.
Proof.
  unfold health_check, while_True at 1. rewrite exec_iter, exec_bind, exec_health_check_body.
  cbv zeta. unfold then_run. cbn [result calls fuel_left].
  destruct (Nat.leb (length (iteration ev (length tr))) fuel) eqn:Hf; [|reflexivity].
  apply Nat.leb_le in Hf. rewrite (firstn_all2 (n := fuel)) by exact Hf.
  destruct (iteration_result ev (length tr)) as [e|[]]; cbn [loop_step].
  - rewrite exec_Ret. cbn. rewrite exec_Ret. reflexivity.
  - rewrite exec_Ret. cbn [result calls fuel_left].
    destruct (fuel - length (iteration ev (length tr))) as [|f]; reflexivity.
Qed.

Lemma no_fault_turn ev k n :
  no_fault ev k (3 + n) -> iteration_result ev k = inr tt /\ no_fault ev (3 + k) n.
Proof.
  intros H. split.
  - unfold iteration_result, outcome.
    pose proof (H 0) as H0. pose proof (H 1) as H1. pose proof (H 2) as H2.
    rewrite Nat.add_0_r in H0. rewrite Nat.add_1_r in H1.
    replace (k + 2) with (S (S k)) in H2 by lia.
    rewrite H0, H1, H2 by lia. reflexivity.
  - intros j Hj. replace (3 + k + j) with (k + (3 + j)) by lia. apply H. lia.
Qed.

Lemma exec_turns n ev tr f :
  no_fault ev (length tr) (3 * n) ->
  exec (4 * n + f) ev tr health_check =
  exec f ev (tr ++ turns ev (length tr) n) health_check.
Proof.
  revert tr. induction n as [|n IH]; intros tr H.
  - cbn. rewrite app_nil_r. reflexivity.
  - replace (3 * S n) with (3 + 3 * n) in H by lia.
    apply no_fault_turn in H. destruct H as [Hr Hn].
    rewrite exec_health_check. cbv zeta.
    pose proof (iteration_returns _ _ Hr) as Hlen. rewrite Hlen, Hr.
    replace (Nat.leb 3 (4 * S n + f)) with true by (symmetry; apply Nat.leb_le; lia).
    replace (4 * S n + f - 3) with (S (4 * n + f)) by lia.
    rewrite IH.
    + rewrite length_app, Hlen. cbn [turns]. rewrite <- app_assoc.
      replace (length tr + 3) with (3 + length tr) by lia. reflexivity.
    + rewrite length_app, Hlen. replace (length tr + 3) with (3 + length tr) by lia.
      exact Hn.
Qed.

(** The loop leaves through the first turn that raises. *)
Lemma exec_health_check_raises n ev tr e f :
  no_fault ev (length tr) (3 * n) ->
  iteration_result ev (3 * n + length tr) = inl e ->
  exec (4 * n + length (iteration ev (3 * n + length tr)) + f) ev tr health_check =
  mk_run (tr ++ turns ev (length tr) n ++ iteration ev (3 * n + length tr)) f (Some (inl e)).
Proof.
  intros Hn He. rewrite <- Nat.add_assoc, exec_turns by exact Hn.
  assert (Hlen : length (tr ++ turns ev (length tr) n) = 3 * n + length tr).
  { clear He. revert tr Hn. induction n as [|n IH]; intros tr Hn.
    - cbn. rewrite app_nil_r. reflexivity.
    - replace (3 * S n) with (3 + 3 * n) in Hn by lia.
      apply no_fault_turn in Hn. destruct Hn as [Hr Hn].
      cbn [turns]. rewrite app_assoc.
      assert (Hl : length (tr ++ iteration ev (length tr)) = 3 + length tr).
      { rewrite length_app, (iteration_returns _ _ Hr). lia. }
      rewrite <- Hl. rewrite IH; rewrite Hl; [lia | exact Hn]. }
  rewrite exec_health_check. cbv zeta. rewrite Hlen, He.
  replace (Nat.leb _ _) with true by (symmetry; apply Nat.leb_le; lia).
  rewrite <- app_assoc. f_equal. lia.
Qed.

(** Without an exception the loop is still running, whatever the fuel. *)
Lemma exec_health_check_running ev :
  (forall k, fault ev k = None) ->
  forall fuel tr, result (exec fuel ev tr health_check) = None.
Proof.
  intros H fuel. induction fuel as [fuel IH] using lt_wf_ind. intros tr.
  rewrite exec_health_check. cbv zeta.
  assert (Hr : iteration_result ev (length tr) = inr tt).
  { unfold iteration_result, outcome. rewrite !H. reflexivity. }
  rewrite Hr, (iteration_returns _ _ Hr).
  destruct (Nat.leb 3 fuel) eqn:Hf; [|reflexivity].
  apply Nat.leb_le in Hf.
  destruct (fuel - 3) as [|f] eqn:Hsub; [reflexivity|]. apply IH. lia.
Qed.

(** ** Around the loop *)

Lemma run_script_unfold fuel ev :
  run_script (S fuel) ev =
  match fault ev 0 with
  | Some e => mk_run [start_call ev] fuel (Some (interpreter_exit (inl e)))
  | None => after_loop ev (exec fuel ev [start_call ev] health_check)
  end.
Proof.
  unfold run_script, script. change (String.eqb __name__ "__main__") with true. cbv iota.
  unfold asyncio_run, main, py_bind. rewrite exec_bind, exec_bind.
  unfold logger_info. rewrite exec_logger_log by reflexivity.
  unfold then_run at 2. cbn [result calls fuel_left length app]. unfold start_call.
  destruct (fault ev 0) as [e|] eqn:F0.
  - unfold outcome. rewrite F0. cbn [propagate]. rewrite exec_Ret.
    unfold then_run. cbn [result calls fuel_left]. rewrite exec_Ret. reflexivity.
  - unfold outcome. rewrite F0. cbn [propagate].
    unfold try_except, py_bind. rewrite !exec_bind. reflexivity.
Qed.

Lemma after_loop_running ev tr f :
  after_loop ev (mk_run tr f None) = mk_run tr 0 None.
Proof. reflexivity. Qed.

(** [KeyboardInterrupt] out of the loop: the first clause logs the
    shutdown notice. *)
Lemma after_loop_KeyboardInterrupt ev tr f :
  after_loop ev (mk_run tr (S f) (Some (inl KeyboardInterrupt))) =
  mk_run (tr ++ [log_call ev (length tr) INFO shutdown_message]) f
         (Some (interpreter_exit (outcome ev (length tr) tt))).
Proof.
  unfold after_loop, then_run. cbn [result calls fuel_left propagate].
  rewrite exec_Ret. cbn [result calls fuel_left handle select_clause except_clauses isinstance].
  unfold logger_info. rewrite exec_logger_log by reflexivity.
  cbn [result calls fuel_left]. rewrite exec_Ret. reflexivity.
Qed.

(** An [Exception] out of the loop: the second clause logs it and raises
    [SystemExit(1)]. *)
Lemma after_loop_Exception ev tr f detail :
  after_loop ev (mk_run tr (S f) (Some (inl (Exception detail)))) =
  mk_run (tr ++ [log_call ev (length tr) ERROR (error_message (Exception detail))]) f
         (Some (match fault ev (length tr) with
                | Some e => interpreter_exit (inl e)
                | None => Exited 1
                end)).
Proof.
  unfold after_loop, then_run. cbn [result calls fuel_left propagate].
  rewrite exec_Ret. cbn [result calls fuel_left handle select_clause except_clauses isinstance].
  unfold py_bind, logger_error. rewrite exec_bind, exec_logger_log by reflexivity.
  unfold then_run, outcome. cbn [result calls fuel_left].
  destruct (fault ev (length tr)) as [e|]; cbn [propagate]; unfold sys_exit, raise;
    rewrite exec_Ret; cbn [result calls fuel_left]; rewrite exec_Ret; reflexivity.
Qed.

(** Any other exception passes both clauses and leaves [main]. *)
Lemma after_loop_uncaught ev tr f e :
  isinstance e cls_KeyboardInterrupt = false ->
  isinstance e cls_Exception = false ->
  after_loop ev (mk_run tr f (Some (inl e))) =
  mk_run tr f (Some (interpreter_exit (inl e))).
Proof.
  intros H1 H2. unfold after_loop, then_run. cbn [result calls fuel_left propagate].
  rewrite exec_Ret. cbn [result calls fuel_left handle select_clause except_clauses].
  rewrite H1, H2. unfold raise. rewrite exec_Ret. cbn [result calls fuel_left].
  rewrite exec_Ret. reflexivity.
Qed.

(** ** What the loop writes *)

Lemma sink_app a b : sink (a ++ b) = sink a ++ sink b.
Proof.
  induction a as [|c a IH]; [reflexivity|].
  destruct c as [r|rec [e|u]|d r|key r|path data r|data r]; cbn; rewrite ?IH; reflexivity.
Qed.

Lemma sleeps_app a b : sleeps (a ++ b) = sleeps a ++ sleeps b.
Proof.
  induction a as [|c a IH]; [reflexivity|].
  destruct c; cbn; rewrite ?IH; reflexivity.
Qed.

Lemma sink_iteration ev k : Forall is_heartbeat (sink (iteration ev k)).
Proof.
  unfold iteration, log_call, outcome.
  destruct (fault ev k); cbn; [constructor|].
  destruct (fault ev (S k)); cbn; [constructor|].
  destruct (fault ev (S (S k))); cbn; repeat constructor; cbn; eauto.
Qed.

Lemma sink_turns ev k n : Forall is_heartbeat (sink (turns ev k n)).
Proof.
  revert k. induction n as [|n IH]; intros k; cbn; [constructor|].
  rewrite sink_app. apply Forall_app. split; [apply sink_iteration | apply IH].
Qed.

Lemma turns_length ev k n : no_fault ev k (3 * n) -> length (turns ev k n) = 3 * n.
Proof.
  revert k. induction n as [|n IH]; intros k H; [reflexivity|].
  replace (3 * S n) with (3 + 3 * n) in H by lia.
  apply no_fault_turn in H. destruct H as [Hr Hn].
  cbn [turns]. rewrite length_app, (iteration_returns _ _ Hr), (IH _ Hn). lia.
Qed.

Lemma prefix_empty s : String.prefix "" s = true.
Proof. destruct s; reflexivity. Qed.

Lemma heartbeat_not_shutdown rec : is_heartbeat rec -> shutdown_recordb rec = false.
Proof. intros [_ [now H]]. unfold shutdown_recordb. rewrite H. reflexivity. Qed.

Lemma heartbeat_not_error rec : is_heartbeat rec -> error_recordb rec = false.
Proof. intros [_ [now H]]. unfold error_recordb. rewrite H. reflexivity. Qed.

Lemma heartbeat_message_recognised t who l now :
  heartbeat_recordb (mk_LogRecord t who l (heartbeat_message now)) = true.
Proof. reflexivity. Qed.

Lemma filter_nothing {A} (f : A -> bool) (P : A -> Prop) l :
  (forall a, P a -> f a = false) -> Forall P l -> filter f l = [].
Proof.
  intros Hf H. induction H as [|a l Ha _ IH]; [reflexivity|].
  cbn. rewrite (Hf a Ha). exact IH.
Qed.

(** The turn in which the first exception falls. *)
Lemma first_fault_turn ev k0 d e :
  fault ev (k0 + d) = Some e ->
  no_fault ev k0 d ->
  no_fault ev k0 (3 * (d / 3)) /\
  iteration_result ev (3 * (d / 3) + k0) = inl e /\
  length (iteration ev (3 * (d / 3) + k0)) = d mod 3 + 1.
Proof.
  intros He Hn.
  pose proof (Nat.div_mod_eq d 3) as Hd.
  pose proof (Nat.mod_upper_bound d 3 ltac:(lia)) as Hj.
  set (q := d / 3) in *. set (j := d mod 3) in *.
  split; [intros i Hi; apply Hn; lia|].
  assert (H0 : j = 0 \/ j = 1 \/ j = 2) by lia.
  unfold iteration_result, iteration, outcome.
  destruct H0 as [H0|[H0|H0]]; rewrite H0 in *.
  - replace (k0 + d) with (3 * q + k0) in He by lia. rewrite He. split; reflexivity.
  - replace (k0 + d) with (S (3 * q + k0)) in He by lia.
    assert (F0 : fault ev (3 * q + k0) = None).
    { replace (3 * q + k0) with (k0 + 3 * q) by lia. apply Hn. lia. }
    rewrite F0, He. split; reflexivity.
  - replace (k0 + d) with (S (S (3 * q + k0))) in He by lia.
    assert (F0 : fault ev (3 * q + k0) = None).
    { replace (3 * q + k0) with (k0 + 3 * q) by lia. apply Hn. lia. }
    assert (F1 : fault ev (S (3 * q + k0)) = None).
    { replace (S (3 * q + k0)) with (k0 + (3 * q + 1)) by lia. apply Hn. lia. }
    rewrite F0, F1, He. split; reflexivity.
Qed.

(** ** Runs in which the loop is left by an exception *)

Lemma start_call_sink ev : fault ev 0 = None ->
  sink [start_call ev] = [mk_LogRecord (log_time ev 0) __name__ INFO starting_message].
Proof. intros F0. unfold start_call, log_call, outcome. rewrite F0. reflexivity. Qed.

(** When call number [k >= 1] is the first to raise, the script reaches
    the [except] clauses with that exception after exactly [k] loop calls,
    all of whose written records are heartbeats. *)
Lemma run_script_loop_raises ev k e fuel :
  1 <= k ->
  fault ev k = Some e ->
  no_fault ev 0 k ->
  2 * k + 2 <= fuel ->
  exists loop_part f,
    run_script fuel ev =
      after_loop ev (mk_run (start_call ev :: loop_part) (S f) (Some (inl e))) /\
    length loop_part = k /\
    Forall is_heartbeat (sink loop_part).
Proof.
  intros Hk He Hn Hfuel.
  assert (F0 : fault ev 0 = None) by (apply (Hn 0); lia).
  assert (He' : fault ev (1 + (k - 1)) = Some e) by (replace (1 + (k - 1)) with k by lia; exact He).
  assert (Hn' : no_fault ev 1 (k - 1)).
  { intros j Hj. replace (1 + j) with (0 + (1 + j)) by lia. apply Hn. lia. }
  destruct (first_fault_turn ev 1 (k - 1) e He' Hn') as (Hq & Hr & Hlen).
  pose proof (Nat.div_mod_eq (k - 1) 3) as Hd.
  pose proof (Nat.mod_upper_bound (k - 1) 3 ltac:(lia)) as Hj.
  set (q := (k - 1) / 3) in *. set (j := (k - 1) mod 3) in *.
  exists (turns ev 1 q ++ iteration ev (3 * q + 1)), (fuel - (4 * q + j + 3)).
  split; [|split].
  - replace fuel with (S (4 * q + length (iteration ev (3 * q + 1)) + S (fuel - (4 * q + j + 3))))
      at 1 by (rewrite Hlen; lia).
    rewrite run_script_unfold, F0.
    rewrite (exec_health_check_raises q ev [start_call ev] e _ Hq Hr).
    reflexivity.
  - rewrite length_app, (turns_length ev 1 q Hq), Hlen. lia.
  - rewrite sink_app. apply Forall_app. split; [apply sink_turns | apply sink_iteration].
Qed.

(** An exception that is neither a [KeyboardInterrupt] nor an [Exception]
    passes both clauses: nothing more is logged and the interpreter ends on
    the exception itself. *)
Lemma uncaught_in_loop ev k e fuel :
  1 <= k ->
  fault ev k = Some e ->
  no_fault ev 0 k ->
  isinstance e cls_KeyboardInterrupt = false ->
  isinstance e cls_Exception = false ->
  2 * k + 2 <= fuel ->
  result (run_script fuel ev) = Some (interpreter_exit (inl e)) /\
  filter shutdown_recordb (sink (calls (run_script fuel ev))) = [] /\
  filter error_recordb (sink (calls (run_script fuel ev))) = [].
Proof.
  intros Hk He Hn H1 H2 Hfuel.
  assert (F0 : fault ev 0 = None) by (apply (Hn 0); lia).
  destruct (run_script_loop_raises ev k _ fuel Hk He Hn Hfuel) as (lp & f & Hrun & Hlen & Hhb).
  rewrite Hrun, (after_loop_uncaught ev _ _ e H1 H2). cbn [result calls].
  change (start_call ev :: lp) with ([start_call ev] ++ lp).
  rewrite !sink_app, !filter_app, (start_call_sink ev F0).
  rewrite (filter_nothing shutdown_recordb is_heartbeat (sink lp) heartbeat_not_shutdown Hhb).
  rewrite (filter_nothing error_recordb is_heartbeat (sink lp) heartbeat_not_error Hhb).
  repeat split.
Qed.

(** ** The task on the tree constructors *)

Lemma exec_task_unfold {R} fuel ev sig tr (t : itree pyE R) :
  exec_task fuel ev sig tr t =
  match observe t with
  | RetF r => mk_run tr fuel (Some r)
  | TauF t' =>
      match fuel with
      | O => mk_run tr 0 None
      | S f => exec_task f ev sig tr t'
      end
  | VisF e k =>
      match fuel with
      | O => mk_run tr 0 None
      | S f => let (tr', x) := respond_task ev sig tr e in exec_task f ev sig tr' (k x)
      end
  end.
Proof. destruct fuel; reflexivity. Qed.

Lemma exec_task_Ret {R} fuel ev sig tr (r : R) :
  exec_task fuel ev sig tr (Ret r) = mk_run tr fuel (Some r).
Proof. rewrite exec_task_unfold. reflexivity. Qed.

Lemma exec_task_Tau {R} fuel ev sig tr (t : itree pyE R) :
  exec_task (S fuel) ev sig tr (Tau t) = exec_task fuel ev sig tr t.
Proof. reflexivity. Qed.

Lemma exec_task_trigger {T} fuel ev sig tr (e : pyE T) :
  exec_task (S fuel) ev sig tr (ITree.trigger e) =
  mk_run (fst (respond_task ev sig tr e)) fuel (Some (snd (respond_task ev sig tr e))).
Proof.
  rewrite exec_task_unfold. cbn. destruct (respond_task ev sig tr e) as [tr' x].
  rewrite exec_task_Ret. reflexivity.
Qed.

Lemma exec_task_out_of_fuel {T} ev sig tr (e : pyE T) :
  exec_task 0 ev sig tr (ITree.trigger e) = mk_run tr 0 None.
Proof. rewrite exec_task_unfold. reflexivity. Qed.

Lemma exec_task_fuel_left {R} fuel ev sig tr (t : itree pyE R) :
  fuel_left (exec_task fuel ev sig tr t) <= fuel.
Proof.
  revert tr t. induction fuel as [|f IH]; intros tr t; rewrite exec_task_unfold;
    destruct (observe t) as [r|t'|X e k]; cbn; auto.
  destruct (respond_task ev sig tr e). auto.
Qed.

Lemma exec_task_bind {A} {B} fuel ev sig tr (t : itree pyE A) (k : A -> itree pyE B) :
  exec_task fuel ev sig tr (ITree.bind t k) = then_task ev sig k (exec_task fuel ev sig tr t).
Proof.
  revert tr t. induction fuel as [|f IH]; intros tr t;
    rewrite (exec_task_unfold _ _ _ _ (ITree.bind t k)), (exec_task_unfold _ _ _ _ t),
      observe_bind;
    destruct (observe t) as [r|t'|X e h]; cbn; try reflexivity.
  - apply IH.
  - destruct (respond_task ev sig tr e). apply IH.
Qed.

Lemma exec_task_iter {I} {R} fuel ev sig tr (body : I -> itree pyE (I + R)) (i : I) :
  exec_task fuel ev sig tr (ITree.iter body i) =
  then_task ev sig (next_turn body) (exec_task fuel ev sig tr (body i)).
Proof.
  rewrite <- exec_task_bind.
  rewrite (exec_task_unfold _ _ _ _ (ITree.iter body i)),
    (exec_task_unfold _ _ _ _ (ITree.bind (body i) (next_turn body))).
  rewrite (observing_observe (unfold_aloop_ body i)). reflexivity.
Qed.

(** With no signal the task is the coroutine run by [exec]. *)
Lemma respond_task_no_signal {T} ev tr (e : pyE T) :
  respond_task ev None tr e = respond ev tr e.
Proof.
  destruct e; reflexivity.
Qed.

Lemma exec_task_no_signal {R} fuel ev tr (t : itree pyE R) :
  exec_task fuel ev None tr t = exec fuel ev tr t.
Proof.
  revert tr t. induction fuel as [|f IH]; intros tr t;
    rewrite exec_task_unfold, exec_unfold;
    destruct (observe t) as [r|t'|X e k]; try reflexivity.
  - apply IH.
  - rewrite respond_task_no_signal. destruct (respond ev tr e). apply IH.
Qed.

Lemma respond_task_length {T} ev sig tr (e : pyE T) :
  length (fst (respond_task ev sig tr e)) = S (length tr).
Proof. destruct e; cbn; apply length_snoc. Qed.

(** ** Rules for two runs that stay the same *)

Section SameRun.
Variables ev1 ev2 : env.
Variables sig1 sig2 : sigint.

Lemma same_Ret {R} tr (r : R) : same_run ev1 sig1 ev2 sig2 tr (Ret r).
Proof. intros fuel. rewrite !exec_task_Ret. reflexivity. Qed.

Lemma same_trigger {T} tr (e : pyE T) :
  respond_task ev1 sig1 tr e = respond_task ev2 sig2 tr e ->
  same_run ev1 sig1 ev2 sig2 tr (ITree.trigger e).
Proof.
  intros H [|f].
  - rewrite !exec_task_out_of_fuel. reflexivity.
  - rewrite !exec_task_trigger, H. reflexivity.
Qed.

Lemma same_bind {A} {B} tr (t : itree pyE A) (k : A -> itree pyE B) :
  same_run ev1 sig1 ev2 sig2 tr t ->
  (forall fuel a, result (exec_task fuel ev1 sig1 tr t) = Some a ->
     same_run ev1 sig1 ev2 sig2 (calls (exec_task fuel ev1 sig1 tr t)) (k a)) ->
  same_run ev1 sig1 ev2 sig2 tr (ITree.bind t k).
Proof.
  intros Ht Hk fuel. rewrite !exec_task_bind, <- (Ht fuel). unfold then_task.
  destruct (result (exec_task fuel ev1 sig1 tr t)) as [a|] eqn:Hr; [|reflexivity].
  apply (Hk fuel a Hr).
Qed.

(** After a call the trace is one call longer. *)
Lemma same_after_call {T} {B} tr (e : pyE T) (k : T -> itree pyE B) :
  respond_task ev1 sig1 tr e = respond_task ev2 sig2 tr e ->
  (forall tr' x, length tr' = S (length tr) -> same_run ev1 sig1 ev2 sig2 tr' (k x)) ->
  same_run ev1 sig1 ev2 sig2 tr (ITree.bind (ITree.trigger e) k).
Proof.
  intros He Hk. apply same_bind; [apply same_trigger, He|].
  intros [|f] a.
  - rewrite exec_task_out_of_fuel. discriminate.
  - rewrite exec_task_trigger. cbn [result calls]. intros _.
    apply Hk, respond_task_length.
Qed.

(** The loop rule, with an invariant [P] of the traces at the head of the
    loop. *)
Lemma same_while_True (P : trace -> Prop) (body : py unit) :
  (forall tr, P tr ->
     same_run ev1 sig1 ev2 sig2 tr body /\
     forall fuel, result (exec_task fuel ev1 sig1 tr body) = Some (inr tt) ->
                  P (calls (exec_task fuel ev1 sig1 tr body))) ->
  forall tr, P tr -> same_run ev1 sig1 ev2 sig2 tr (while_True body).
Proof.
  intros Hbody tr Htr fuel. revert tr Htr.
  induction fuel as [fuel IH] using lt_wf_ind. intros tr Htr.
  unfold while_True. rewrite !exec_task_iter, !exec_task_bind.
  destruct (Hbody tr Htr) as [Hsame HP]. rewrite <- (Hsame fuel).
  specialize (HP fuel).
  pose proof (exec_task_fuel_left fuel ev1 sig1 tr body) as Hle.
  destruct (exec_task fuel ev1 sig1 tr body) as [tr' f' [[e|[]]|]]; unfold then_task;
    cbn [result calls fuel_left loop_step] in *.
  - rewrite !exec_task_Ret. cbn [result calls fuel_left next_turn].
    rewrite !exec_task_Ret. reflexivity.
  - rewrite !exec_task_Ret. cbn [result calls fuel_left next_turn].
    destruct f' as [|f']; [reflexivity|]. rewrite !exec_task_Tau.
    apply IH; [lia | apply HP; reflexivity].
  - reflexivity.
Qed.
End SameRun.

(** ** The loop under a signal *)

Lemma cancelling_fault_other ev sig k :
  k mod 3 <> 0 -> fault (cancelling ev sig) k = fault ev k.
Proof.
  intros H. unfold cancelling. cbn [fault]. destruct (fault ev k); [reflexivity|].
  destruct (Nat.eqb_spec (k mod 3) 0) as [E|E]; [contradiction|].
  rewrite andb_false_r. reflexivity.
Qed.

Lemma cancelling_fault_0 ev sig : fault (cancelling ev sig) 0 = fault ev 0.
Proof. unfold cancelling. cbn [fault]. destruct (fault ev 0); reflexivity. Qed.

Lemma start_call_cancelling ev sig : start_call (cancelling ev sig) = start_call ev.
Proof. unfold start_call, log_call, outcome. rewrite cancelling_fault_0. reflexivity. Qed.

Lemma third_calls k :
  k mod 3 = 1 ->
  S k mod 3 = 2 /\ S (S k) mod 3 = 0 /\ S (S (S k)) mod 3 = 1.
Proof.
  intros H. pose proof (Nat.div_mod_eq k 3) as E. rewrite H in E.
  set (q := k / 3) in *.
  replace (S k) with (2 + q * 3) by lia.
  replace (S (S (2 + q * 3))) with (1 + (q + 1) * 3) by lia.
  replace (S (2 + q * 3)) with (0 + (q + 1) * 3) by lia.
  rewrite !Nat.Div0.mod_add. repeat split.
Qed.

(** A call that is not a sleep is answered in the task as in the
    coroutine. *)
Lemma respond_now_cancelling ev sig tr :
  length tr mod 3 <> 0 ->
  respond_task ev sig tr Datetime_now = respond_task (cancelling ev sig) None tr Datetime_now.
Proof.
  intros H. cbn. unfold outcome. rewrite (cancelling_fault_other ev sig _ H). reflexivity.
Qed.

Lemma respond_log_cancelling ev sig tr who l msg :
  length tr mod 3 <> 0 ->
  respond_task ev sig tr (Logging_handle who l msg) =
  respond_task (cancelling ev sig) None tr (Logging_handle who l msg).
Proof.
  intros H. cbn. unfold outcome. rewrite (cancelling_fault_other ev sig _ H). reflexivity.
Qed.

Lemma respond_sleep_cancelling ev sig tr delay :
  length tr mod 3 = 0 -> 1 <= length tr ->
  respond_task ev sig tr (Asyncio_sleep delay) =
  respond_task (cancelling ev sig) None tr (Asyncio_sleep delay).
Proof.
  intros H H1. unfold respond_task, cancelling. cbn [fault cancel_requested].
  apply Nat.leb_le in H1. rewrite H1, H. cbn [Nat.eqb andb].
  destruct (fault ev (length tr)); [reflexivity|].
  destruct (cancel_requested sig (length tr)); reflexivity.
Qed.

Lemma health_check_body_same ev sig tr :
  length tr mod 3 = 1 ->
  same_run ev sig (cancelling ev sig) None tr health_check_body.
Proof.
  intros H. destruct (third_calls _ H) as (H2 & H3 & _).
  unfold health_check_body, py_bind, datetime_now, call.
  apply same_after_call; [apply respond_now_cancelling; lia|].
  intros tr1 [e|now] L1; [apply same_Ret|]. cbn [propagate].
  unfold logger_info, logger_log, call. change (isEnabledFor INFO) with true. cbv iota.
  apply same_after_call; [apply respond_log_cancelling; rewrite L1; lia|].
  intros tr2 [e|[]] L2; [apply same_Ret|]. cbn [propagate].
  unfold asyncio_sleep, call. apply same_trigger.
  apply respond_sleep_cancelling; rewrite L2, L1; [exact H3 | lia].
Qed.

(** From call 1 on, the loop of the task under a signal is the loop of the
    coroutine in the environment [cancelling]. *)
Lemma exec_task_health_check ev sig fuel tr :
  length tr mod 3 = 1 ->
  exec_task fuel ev sig tr health_check = exec fuel (cancelling ev sig) tr health_check.
Proof.
  intros H. rewrite <- exec_task_no_signal. revert fuel.
  change (same_run ev sig (cancelling ev sig) None tr health_check).
  apply (same_while_True ev (cancelling ev sig) sig None (fun tr => length tr mod 3 = 1));
    [|exact H].
  clear tr H. intros tr H. split; [apply health_check_body_same, H|].
  intros fuel. rewrite (health_check_body_same ev sig tr H fuel), exec_task_no_signal.
  rewrite exec_health_check_body. cbn [result calls].
  destruct (Nat.leb _ fuel) eqn:Hf; [|discriminate]. apply Nat.leb_le in Hf.
  intros Hr. inversion Hr as [Hr']. rewrite firstn_all2 by exact Hf.
  rewrite length_app, (iteration_returns _ _ Hr').
  destruct (third_calls _ H) as (_ & _ & H4).
  replace (length tr + 3) with (S (S (S (length tr)))) by lia. exact H4.
Qed.

(** The [except] clauses only log: a signal changes nothing in them. *)
Lemma exec_task_logger_log ev sig fuel tr l msg :
  exec_task fuel ev sig tr (logger_log l msg) = exec fuel ev tr (logger_log l msg).
Proof.
  rewrite <- exec_task_no_signal. unfold logger_log.
  destruct (isEnabledFor l); [|unfold py_ret; rewrite !exec_task_Ret; reflexivity].
  unfold call. apply same_trigger. reflexivity.
Qed.

Lemma exec_task_handle ev sig fuel tr x :
  exec_task fuel ev sig tr (handle except_clauses x) =
  exec fuel ev tr (handle except_clauses x).
Proof.
  destruct x as [e|u]; cbn [handle]; [|unfold py_ret; rewrite exec_task_Ret, exec_Ret; reflexivity].
  unfold except_clauses.
  destruct e; cbn [select_clause isinstance]; unfold raise;
    try (rewrite exec_task_Ret, exec_Ret; reflexivity).
  - apply exec_task_logger_log.
  - unfold py_bind, logger_error. rewrite exec_task_bind, exec_bind, exec_task_logger_log.
    unfold then_task, then_run.
    destruct (result (exec fuel ev tr (logger_log _ _))) as [[e|u]|]; [| |reflexivity];
      cbn [propagate]; unfold sys_exit, raise; rewrite exec_task_Ret, exec_Ret; reflexivity.
Qed.

Lemma run_process_unfold fuel ev sig :
  run_process (S fuel) ev sig =
  process_exit sig
    match fault ev 0 with
    | Some e => mk_run [start_call ev] fuel (Some (inl e))
    | None => handling ev (exec fuel (cancelling ev sig) [start_call ev] health_check)
    end.
Proof.
  unfold run_process. change (String.eqb __name__ "__main__") with true. cbv iota.
  change (process_exit sig (exec_task (S fuel) ev sig [] main) = process_exit sig
    match fault ev 0 with
    | Some e => mk_run [start_call ev] fuel (Some (inl e))
    | None => handling ev (exec fuel (cancelling ev sig) [start_call ev] health_check)
    end).
  f_equal.
  unfold main, py_bind. rewrite exec_task_bind.
  unfold logger_info. rewrite exec_task_logger_log, exec_logger_log by reflexivity.
  unfold then_task. cbn [result calls fuel_left length app]. fold (start_call ev).
  unfold outcome. destruct (fault ev 0) as [e|] eqn:F0; cbn [propagate].
  - rewrite exec_task_Ret. reflexivity.
  - unfold try_except, py_bind. rewrite !exec_task_bind.
    rewrite exec_task_health_check by reflexivity.
    unfold handling, then_task, then_run.
    destruct (exec fuel (cancelling ev sig) [start_call ev] health_check) as [tr f [[e|[]]|]];
      cbn [result calls fuel_left propagate]; [|reflexivity].
    rewrite exec_task_Ret, exec_Ret. cbn [result calls fuel_left].
    apply exec_task_handle.
Qed.

Lemma handling_calls ev r : calls (handling ev r) = calls (after_loop ev r).
Proof.
  unfold after_loop. fold (handling ev r). unfold then_run at 1.
  destruct (result (handling ev r)); [rewrite exec_Ret|]; reflexivity.
Qed.

Lemma run_process_calls fuel ev sig :
  calls (run_process (S fuel) ev sig) =
  match fault ev 0 with
  | Some _ => [start_call ev]
  | None => calls (after_loop ev (exec fuel (cancelling ev sig) [start_call ev] health_check))
  end.
Proof.
  rewrite run_process_unfold. unfold process_exit. cbn [calls].
  destruct (fault ev 0); [reflexivity | apply handling_calls].
Qed.

(** ** The clauses and the runner *)

Lemma handling_uncaught ev tr f e :
  isinstance e cls_KeyboardInterrupt = false ->
  isinstance e cls_Exception = false ->
  handling ev (mk_run tr f (Some (inl e))) = mk_run tr f (Some (inl e)).
Proof.
  intros H1 H2. unfold handling, then_run. cbn [result calls fuel_left propagate].
  rewrite exec_Ret. cbn [result calls fuel_left handle select_clause except_clauses].
  rewrite H1, H2. unfold raise. rewrite exec_Ret. reflexivity.
Qed.

(** ** A signal and nothing else *)

(** When no call fails by itself, the first call that raises under a
    signal is the first sleep answered after it. *)
Lemma cancelling_first_fault ev s :
  (forall k, fault ev k = None) ->
  fault (cancelling ev (Some s)) (cancelled_sleep s) = Some CancelledError /\
  no_fault (cancelling ev (Some s)) 0 (cancelled_sleep s).
Proof.
  intros H. unfold cancelled_sleep.
  pose proof (Nat.div_mod_eq (s + 2) 3) as E.
  pose proof (Nat.mod_upper_bound (s + 2) 3 ltac:(lia)) as B.
  set (q := (s + 2) / 3) in *. set (r := (s + 2) mod 3) in *.
  split.
  - unfold cancelling. cbn [fault cancel_requested]. rewrite H.
    replace (3 * Nat.max 1 q) with (0 + Nat.max 1 q * 3) by lia.
    rewrite Nat.Div0.mod_add. cbn [Nat.modulo Nat.eqb].
    replace (Nat.leb 1 (0 + Nat.max 1 q * 3)) with true by (symmetry; apply Nat.leb_le; lia).
    replace (Nat.leb s (0 + Nat.max 1 q * 3)) with true by (symmetry; apply Nat.leb_le; lia).
    reflexivity.
  - intros j Hj. cbn [Nat.add]. unfold cancelling. cbn [fault cancel_requested]. rewrite H.
    destruct (Nat.leb_spec 1 j) as [J|J]; [|reflexivity].
    destruct (Nat.eqb_spec (j mod 3) 0) as [M|M]; [|reflexivity].
    pose proof (Nat.div_mod_eq j 3) as Ej. rewrite M in Ej.
    replace (Nat.leb s j) with false by (symmetry; apply Nat.leb_gt; lia).
    rewrite andb_false_r. reflexivity.
Qed.

(** The last turn of the loop under a signal: the clock is read, the
    heartbeat is written, and the sleep raises [CancelledError]. *)
Lemma cancelled_turn ev k :
  fault ev k = None -> fault ev (S k) = None -> fault ev (S (S k)) = Some CancelledError ->
  iteration ev k =
    [ Call_now (inr (clock ev k));
      Call_log (mk_LogRecord (log_time ev (S k)) "__main__" INFO
                  ("System healthy at " ++ isoformat (clock ev k))%string) (inr tt);
      Call_sleep 30 (inl CancelledError) ] /\
  iteration_result ev k = inl CancelledError.
Proof.
  intros F0 F1 F2. unfold iteration, iteration_result, log_call, outcome.
  rewrite F0, F1, F2. split; reflexivity.
Qed.

(** The run of the process that meets a signal and no other failure. *)
Lemma run_process_cancelled ev s fuel :
  (forall k, fault ev k = None) ->
  2 * s + 8 <= fuel ->
  let ev' := cancelling ev (Some s) in
  let m := Nat.max 1 ((s + 2) / 3) in
  exists f,
    run_process fuel ev (Some s) =
    mk_run ([start_call ev] ++ turns ev' 1 (m - 1) ++
              [ Call_now (inr (clock ev (3 * m - 2)));
                Call_log (mk_LogRecord (log_time ev (3 * m - 1)) "__main__" INFO
                            ("System healthy at " ++ isoformat (clock ev (3 * m - 2)))%string)
                         (inr tt);
                Call_sleep 30 (inl CancelledError) ])
           f (Some (Traceback KeyboardInterrupt)) /\
    length (turns ev' 1 (m - 1)) = 3 * (m - 1) /\
    Forall is_heartbeat (sink (turns ev' 1 (m - 1))).
Proof.
  intros H Hfuel ev' m.
  destruct (cancelling_first_fault ev s H) as [Hc Hn]. fold ev' in Hc, Hn.
  unfold cancelled_sleep in Hc, Hn. fold m in Hc, Hn.
  pose proof (Nat.div_mod_eq (s + 2) 3) as E.
  pose proof (Nat.mod_upper_bound (s + 2) 3 ltac:(lia)) as B.
  assert (Hm : 1 <= m) by (unfold m; lia).
  assert (Hms : s <= 3 * m) by (unfold m; lia).
  assert (Hmf : 4 * m <= fuel) by (unfold m; lia).
  assert (Hturns : no_fault ev' 1 (3 * (m - 1))).
  { intros j Hj. apply (Hn (1 + j)). lia. }
  assert (F1 : fault ev' (3 * (m - 1) + 1) = None) by (apply (Hn (3 * (m - 1) + 1)); lia).
  assert (F2 : fault ev' (S (3 * (m - 1) + 1)) = None)
    by (apply (Hn (S (3 * (m - 1) + 1))); lia).
  assert (F3 : fault ev' (S (S (3 * (m - 1) + 1))) = Some CancelledError)
    by (replace (S (S (3 * (m - 1) + 1))) with (3 * m) by lia; exact Hc).
  destruct (cancelled_turn ev' _ F1 F2 F3) as [Hit Hres].
  exists (fuel - 4 * m).
  replace fuel with (S (4 * (m - 1) + length (iteration ev' (3 * (m - 1) + 1)) + (fuel - 4 * m)))
    at 1 by (rewrite Hit; cbn [length]; lia).
  rewrite run_process_unfold, H.
  rewrite <- (start_call_cancelling ev (Some s)). fold ev'.
  rewrite (exec_health_check_raises (m - 1) ev' [start_call ev'] CancelledError _ Hturns Hres).
  rewrite handling_uncaught by reflexivity.
  unfold process_exit. cbn [calls fuel_left result option_map].
  change (length [start_call ev']) with 1. rewrite Hit.
  split; [|split; [apply (turns_length ev' 1 (m - 1) Hturns) | apply sink_turns]].
  f_equal.
  - unfold ev'. cbn [clock log_time].
    replace (3 * (m - 1) + 1) with (3 * m - 2) by lia.
    replace (S (3 * m - 2)) with (3 * m - 1) by lia. reflexivity.
  - rewrite !length_app, (turns_length ev' 1 (m - 1) Hturns). cbn [length interrupted].
    replace (Nat.ltb s (1 + (3 * (m - 1) + 3))) with true
      by (symmetry; apply Nat.ltb_lt; lia).
    reflexivity.
Qed.

(** C1. A SIGINT that arrives during call number [s], whichever call that
    is, in a run in which no call fails by itself: the runner cancels the
    task, the first sleep answered after the signal raises
    [CancelledError], neither [except] clause takes it, and [asyncio.run]
    raises [KeyboardInterrupt] outside [main]. The process ends with a
    traceback, killed by SIGINT and not with exit code 0; the log holds
    the startup line and heartbeat lines only, so no shutdown line; the
    cancelled sleep is the last call. *)
Theorem sigint_is_not_caught ev s fuel :
  (forall k, fault ev k = None) ->
  2 * s + 8 <= fuel ->
  result (run_process fuel ev (Some s)) = Some (Traceback KeyboardInterrupt) /\
  option_map exit_code (result (run_process fuel ev (Some s))) = Some Killed_by_SIGINT /\
  filter shutdown_recordb (sink (calls (run_process fuel ev (Some s)))) = [] /\
  (exists beats,
      sink (calls (run_process fuel ev (Some s))) =
        mk_LogRecord (log_time ev 0) "__main__" INFO "Starting Trading System..." :: beats /\
      Forall is_heartbeat beats /\ beats <> []) /\
  (exists before,
      calls (run_process fuel ev (Some s)) = before ++ [Call_sleep 30 (inl CancelledError)] /\
      length before = cancelled_sleep s).
Proof.
  intros H Hfuel.
  destruct (run_process_cancelled ev s fuel H Hfuel) as (f & Hrun & Hlen & Hhb).
  cbv zeta in Hrun, Hlen, Hhb. rewrite Hrun. cbn [result calls option_map exit_code].
  set (m := Nat.max 1 ((s + 2) / 3)) in *.
  assert (Hm : 1 <= m) by (unfold m; lia).
  set (ev' := cancelling ev (Some s)) in *.
  assert (Hsink : sink ([start_call ev] ++ turns ev' 1 (m - 1) ++
              [ Call_now (inr (clock ev (3 * m - 2)));
                Call_log (mk_LogRecord (log_time ev (3 * m - 1)) "__main__" INFO
                            ("System healthy at " ++ isoformat (clock ev (3 * m - 2)))%string)
                         (inr tt);
                Call_sleep 30 (inl CancelledError) ]) =
           mk_LogRecord (log_time ev 0) "__main__" INFO "Starting Trading System..." ::
           (sink (turns ev' 1 (m - 1)) ++
              [mk_LogRecord (log_time ev (3 * m - 1)) "__main__" INFO
                 ("System healthy at " ++ isoformat (clock ev (3 * m - 2)))%string])).
  { rewrite !sink_app, (start_call_sink ev (H 0)). reflexivity. }
  assert (Hbeats : Forall is_heartbeat
            (sink (turns ev' 1 (m - 1)) ++
               [mk_LogRecord (log_time ev (3 * m - 1)) "__main__" INFO
                  ("System healthy at " ++ isoformat (clock ev (3 * m - 2)))%string])).
  { apply Forall_app. split; [exact Hhb|]. repeat constructor. cbn. eauto. }
  split; [reflexivity|]. split; [reflexivity|]. split; [|split].
  - rewrite Hsink. cbn [filter]. change (shutdown_recordb _) with false at 1. cbv iota.
    apply (filter_nothing shutdown_recordb is_heartbeat _ heartbeat_not_shutdown Hbeats).
  - eexists. split; [exact Hsink|]. split; [exact Hbeats|].
    intros E. apply app_eq_nil in E. destruct E as [_ E]. discriminate E.
  - exists ([start_call ev] ++ turns ev' 1 (m - 1) ++
              [ Call_now (inr (clock ev (3 * m - 2)));
                Call_log (mk_LogRecord (log_time ev (3 * m - 1)) "__main__" INFO
                            ("System healthy at " ++ isoformat (clock ev (3 * m - 2)))%string)
                         (inr tt) ]).
    split.
    + rewrite <- !app_assoc. reflexivity.
    + rewrite !length_app, Hlen. cbn [length]. unfold cancelled_sleep. fold m. lia.
Qed.

Lemma sigint_is_not_caught_witness :
  result (run_process 20 quiet (Some 3)) = Some (Traceback KeyboardInterrupt) /\
  filter shutdown_recordb (sink (calls (run_process 20 quiet (Some 3)))) = [].
Proof.
  destruct (sigint_is_not_caught quiet 3 20) as (H1 & _ & H3 & _).
  - intros k. reflexivity.
  - lia.
  - split; [exact H1 | exact H3].
Defined.

(** ** Failures *)

(** C2. When an exception of the class [Exception] is raised by a call of
    the heartbeat loop and is the only exception of the run (none before
    it, none while the error is logged), the loop is not resumed: the next
    and last call logs, at level ERROR, the message "System error: "
    followed by the text of the exception; the log holds exactly one such
    line, and the process ends through [sys.exit(1)], with exit status
    1. *)
Theorem exception_in_loop_is_fatal ev k detail fuel :
  1 <= k ->
  fault ev k = Some (Exception detail) ->
  no_fault ev 0 k ->
  fault ev (S k) = None ->
  2 * k + 2 <= fuel ->
  result (run_script fuel ev) = Some (Exited 1) /\
  option_map exit_code (result (run_script fuel ev)) = Some (Exit_code 1) /\
  length (filter error_recordb (sink (calls (run_script fuel ev)))) = 1 /\
  (exists pre rec,
      sink (calls (run_script fuel ev)) = pre ++ [rec] /\
      lvl rec = ERROR /\ message rec = ("System error: " ++ detail)%string) /\
  (exists before,
      calls (run_script fuel ev) =
        before ++ [log_call ev (S k) ERROR ("System error: " ++ detail)%string] /\
      length before = S k).
Proof.
  intros Hk He Hn Hs Hfuel.
  assert (F0 : fault ev 0 = None) by (apply (Hn 0); lia).
  destruct (run_script_loop_raises ev k _ fuel Hk He Hn Hfuel) as (lp & f & Hrun & Hlen & Hhb).
  rewrite Hrun, after_loop_Exception. cbn [result calls length].
  rewrite Hlen, Hs.
  split; [reflexivity|]. split; [reflexivity|]. split; [|split].
  - change (start_call ev :: lp) with ([start_call ev] ++ lp).
    rewrite !sink_app, !filter_app, (start_call_sink ev F0).
    rewrite (filter_nothing error_recordb is_heartbeat (sink lp) heartbeat_not_error Hhb).
    unfold log_call, outcome. rewrite Hs. cbn. rewrite prefix_empty. reflexivity.
  - exists (sink (start_call ev :: lp)),
      (mk_LogRecord (log_time ev (S k)) __name__ ERROR ("System error: " ++ detail)%string).
    rewrite sink_app. unfold log_call, outcome. rewrite Hs. cbn. auto.
  - exists (start_call ev :: lp). cbn [length]. rewrite Hlen. auto.
Qed.

Lemma exception_in_loop_is_fatal_witness :
  result (run_script 20 (raising_at 5 (Exception "disk full"))) = Some (Exited 1) /\
  exists pre rec,
    sink (calls (run_script 20 (raising_at 5 (Exception "disk full")))) = pre ++ [rec] /\
    lvl rec = ERROR /\ message rec = "System error: disk full".
Proof.
  destruct (exception_in_loop_is_fatal (raising_at 5 (Exception "disk full")) 5 "disk full" 20)
    as (H1 & _ & _ & H3 & _).
  - lia.
  - reflexivity.
  - intros j Hj. cbn. destruct (Nat.eqb_spec j 5) as [E|E]; [lia | reflexivity].
  - reflexivity.
  - lia.
  - split; [exact H1 | exact H3].
Defined.

(** ** A signal right after the startup line *)

(** C5 as stated fails. A SIGINT that arrives right after the startup
    line, while the clock is read for the first heartbeat, cancels the
    task, but the coroutine does not suspend before its first sleep: the
    first heartbeat line is written all the same (one heartbeat line, not
    zero), the sleep then raises [CancelledError], no shutdown line is
    written and the process does not end with exit code 0. *)
Lemma sigint_after_startup_not_clean :
  map message (sink (calls (run_process 20 quiet (Some 1)))) =
    ["Starting Trading System..."; "System healthy at 2024-01-01T09:00:00.000250"] /\
  heartbeat_lines (calls (run_process 20 quiet (Some 1))) = 1 /\
  filter shutdown_recordb (sink (calls (run_process 20 quiet (Some 1)))) = [] /\
  result (run_process 20 quiet (Some 1)) = Some (Traceback KeyboardInterrupt).
Proof. vm_compute. repeat split. Qed.

(** C5 (amended). A SIGINT arrives after the startup line and before the
    first heartbeat line is written: during the first reading of the clock
    (call 1) or during the logging call of the first heartbeat (call 2),
    and none of the first four calls fails by itself. The startup line is
    the first line of the log, the first heartbeat is still read and
    written, and the signal takes effect at the first sleep, which raises
    [CancelledError]: the process writes exactly one heartbeat line, reads
    the clock once and calls sleep once. *)
Theorem sigint_after_startup_still_heartbeats ev s fuel :
  s = 1 \/ s = 2 ->
  no_fault ev 0 4 ->
  4 <= fuel ->
  (exists rest,
      calls (run_process fuel ev (Some s)) =
        Call_log (mk_LogRecord (log_time ev 0) "__main__" INFO "Starting Trading System...")
                 (inr tt)
        :: Call_now (inr (clock ev 1))
        :: Call_log (mk_LogRecord (log_time ev 2) "__main__" INFO
                       ("System healthy at " ++ isoformat (clock ev 1))%string) (inr tt)
        :: Call_sleep 30 (inl CancelledError)
        :: rest) /\
  heartbeat_lines (calls (run_process fuel ev (Some s))) = 1 /\
  clock_reads (calls (run_process fuel ev (Some s))) = 1 /\
  sleeps (calls (run_process fuel ev (Some s))) = [30%Z].
Proof.
  intros Hs Hn Hfuel.
  assert (F0 : fault ev 0 = None) by (apply (Hn 0); lia).
  assert (F1 : fault ev 1 = None) by (apply (Hn 1); lia).
  assert (F2 : fault ev 2 = None) by (apply (Hn 2); lia).
  assert (F3 : fault ev 3 = None) by (apply (Hn 3); lia).
  set (ev' := cancelling ev (Some s)).
  assert (F1' : fault ev' 1 = None)
    by (unfold ev'; rewrite cancelling_fault_other by (cbn; lia); exact F1).
  assert (F2' : fault ev' 2 = None)
    by (unfold ev'; rewrite cancelling_fault_other by (cbn; lia); exact F2).
  assert (F3' : fault ev' 3 = Some CancelledError).
  { unfold ev', cancelling. cbn [fault]. rewrite F3.
    destruct Hs as [-> | ->]; reflexivity. }
  destruct (cancelled_turn ev' 1 F1' F2' F3') as [Hit Hres].
  destruct fuel as [|[|[|[|f]]]]; try lia.
  rewrite run_process_unfold, F0. fold ev'.
  rewrite exec_health_check. cbv zeta. cbn [length]. rewrite Hit, Hres.
  cbn [length Nat.leb Nat.sub app].
  rewrite handling_uncaught by reflexivity.
  unfold process_exit. cbn [calls].
  unfold start_call, log_call, outcome. rewrite F0. unfold ev'. cbn [clock log_time].
  split; [exists []; reflexivity|]. repeat split.
Qed.

Lemma sigint_after_startup_still_heartbeats_witness :
  heartbeat_lines (calls (run_process 10 quiet (Some 2))) = 1 /\
  sleeps (calls (run_process 10 quiet (Some 2))) = [30%Z].
Proof.
  destruct (sigint_after_startup_still_heartbeats quiet 2 10) as (_ & H2 & _ & H4).
  - right. reflexivity.
  - intros j Hj. reflexivity.
  - lia.
  - split; [exact H2 | exact H4].
Defined.

(** ** Undisturbed turns *)

Lemma iteration_tick ev k : no_fault ev k 3 -> iteration ev k = tick ev k.
Proof.
  intros H. unfold iteration, tick, log_call, outcome.
  pose proof (H 0) as H0. pose proof (H 1) as H1. pose proof (H 2) as H2.
  rewrite Nat.add_0_r in H0. rewrite Nat.add_1_r in H1.
  replace (k + 2) with (S (S k)) in H2 by lia.
  rewrite H0, H1, H2 by lia. reflexivity.
Qed.

Lemma flat_map_after_map {A B C} (f : B -> list C) (g : A -> B) l :
  flat_map f (map g l) = flat_map (fun a => f (g a)) l.
Proof. induction l as [|a l IH]; cbn; [reflexivity | rewrite IH; reflexivity]. Qed.

Lemma turns_ticks ev k n :
  no_fault ev k (3 * n) ->
  turns ev k n = flat_map (fun i => tick ev (k + 3 * i)) (seq 0 n).
Proof.
  revert k. induction n as [|n IH]; intros k H; [reflexivity|].
  replace (3 * S n) with (3 + 3 * n) in H by lia.
  assert (H3 : no_fault ev k 3) by (intros j Hj; apply H; lia).
  apply no_fault_turn in H. destruct H as [_ Hn].
  cbn [turns seq flat_map]. rewrite (iteration_tick ev k H3), Nat.add_0_r.
  f_equal. rewrite (IH _ Hn), <- (seq_shift n 0), flat_map_after_map.
  apply flat_map_ext. intros i. f_equal. lia.
Qed.

(** After [n] undisturbed turns the process is at the head of the loop
    again, with the startup call and the calls of those turns behind it. *)
Lemma run_script_turns ev n :
  no_fault ev 0 (1 + 3 * n) ->
  run_script (1 + 4 * n) ev = mk_run (start_call ev :: turns ev 1 n) 0 None.
Proof.
  intros H.
  assert (F0 : fault ev 0 = None) by (apply (H 0); lia).
  assert (Hn : no_fault ev 1 (3 * n)).
  { intros j Hj. replace (1 + j) with (0 + (1 + j)) by lia. apply H. lia. }
  change (1 + 4 * n) with (S (4 * n)).
  rewrite run_script_unfold, F0.
  replace (4 * n) with (4 * n + 0) by lia.
  rewrite (exec_turns n ev [start_call ev] 0 Hn).
  rewrite exec_health_check. cbv zeta.
  replace (Nat.leb _ 0) with false
    by (symmetry; apply Nat.leb_gt; pose proof (iteration_length ev
          (length ([start_call ev] ++ turns ev (length [start_call ev]) n))); lia).
  cbn [firstn]. rewrite app_nil_r, after_loop_running. reflexivity.
Qed.

(** C3. As long as no call raises, every turn of the loop makes exactly
    three calls in this order: it reads the clock; it logs, at level INFO,
    the message "System healthy at " followed by the ISO form of that very
    reading, and the handler writes it; it sleeps for the interval. After
    [n] such turns the trace is the startup line followed by [n] such
    triples and the process is running the loop again. *)
Theorem turn_steps_in_order ev n :
  no_fault ev 0 (1 + 3 * n) ->
  calls (run_script (1 + 4 * n) ev) =
    Call_log (mk_LogRecord (log_time ev 0) "__main__" INFO "Starting Trading System...") (inr tt)
    :: flat_map (fun i => tick ev (1 + 3 * i)) (seq 0 n) /\
  result (run_script (1 + 4 * n) ev) = None.
Proof.
  intros H. rewrite (run_script_turns ev n H). cbn [calls result].
  assert (F0 : fault ev 0 = None) by (apply (H 0); lia).
  assert (Hn : no_fault ev 1 (3 * n)).
  { intros j Hj. replace (1 + j) with (0 + (1 + j)) by lia. apply H. lia. }
  rewrite (turns_ticks ev 1 n Hn). unfold start_call, log_call, outcome. rewrite F0.
  split; reflexivity.
Qed.

Lemma turn_steps_in_order_witness :
  calls (run_script 9 quiet) =
    Call_log (mk_LogRecord (log_time quiet 0) "__main__" INFO "Starting Trading System...") (inr tt)
    :: tick quiet 1 ++ tick quiet 4.
Proof.
  destruct (turn_steps_in_order quiet 2) as [H _].
  - intros j _. reflexivity.
  - exact H.
Defined.

(** ** The loop has no exit of its own *)

Lemma after_loop_still_running ev (r : run (exn + Empty_set)) :
  result r = None -> result (after_loop ev r) = None.
Proof. destruct r as [tr f res]. cbn. intros ->. reflexivity. Qed.

(** C9. While no call raises, [health_check] has not returned at any
    amount of fuel, from any trace; the process has no exit status at any
    amount of fuel; and it keeps going round the loop: after [1 + 4 * n]
    steps it has made [1 + 3 * n] calls. *)
Theorem health_check_never_returns ev :
  (forall k, fault ev k = None) ->
  (forall fuel tr, result (exec fuel ev tr health_check) = None) /\
  (forall fuel, result (run_script fuel ev) = None) /\
  (forall n, length (calls (run_script (1 + 4 * n) ev)) = 1 + 3 * n).
Proof.
  intros H. split; [|split].
  - apply exec_health_check_running, H.
  - intros [|f]; [reflexivity|].
    rewrite run_script_unfold, H. apply after_loop_still_running.
    apply exec_health_check_running, H.
  - intros n.
    rewrite (run_script_turns ev n) by (intros j _; apply H). cbn [calls length].
    rewrite (turns_length ev 1 n) by (intros j _; apply H). reflexivity.
Qed.

Lemma health_check_never_returns_witness :
  result (run_script 200 quiet) = None /\
  length (calls (run_script 41 quiet)) = 31.
Proof.
  destruct (health_check_never_returns quiet) as (_ & H2 & H3).
  - intros k. reflexivity.
  - split; [apply H2 | apply (H3 10)].
Defined.

(** ** Invariants of the script *)

Section LogInvariant.
Variable ev : env.
Variable I : trace -> Prop.
Variable M : level -> string -> Prop.
Hypothesis I_log :
  forall tr l msg, M l msg -> I tr -> I (tr ++ [log_call ev (length tr) l msg]).
Hypothesis M_handlers : forall l msg, handler_message l msg -> M l msg.

Lemma preserves_logger_log l msg : M l msg -> preserves ev I (logger_log l msg).
Proof.
  intros Hm. unfold logger_log. destruct (isEnabledFor l); [|apply preserves_Ret].
  apply preserves_trigger. intros tr Htr. cbn. apply I_log; assumption.
Qed.

Lemma preserves_except_clauses c h e :
  In (c, h) except_clauses -> preserves ev I (h e).
Proof.
  intros [H|[H|[]]]; inversion H; subst; clear H.
  - apply preserves_logger_log, M_handlers. constructor.
  - apply preserves_py_bind.
    + apply preserves_logger_log, M_handlers. constructor.
    + intros _. apply preserves_Ret.
Qed.

(** What follows the loop only logs. *)
Lemma after_loop_invariant r : I (calls r) -> I (calls (after_loop ev r)).
Proof.
  intros Hr. unfold after_loop.
  apply preserves_then; [intros x; apply preserves_Ret|].
  apply preserves_then.
  { intros [e|a]; [|apply preserves_Ret]. cbn [handle].
    destruct (select_clause except_clauses e) as [h|] eqn:Hsel; [|apply preserves_Ret].
    unfold except_clauses in Hsel.
    destruct e; cbn [select_clause isinstance] in Hsel; inversion Hsel; subst; clear Hsel.
    - apply preserves_logger_log, M_handlers. constructor.
    - apply preserves_py_bind.
      + apply preserves_logger_log, M_handlers. exact (hm_error (Exception detail)).
      + intros _. apply preserves_Ret. }
  apply preserves_then; [|exact Hr].
  intros [e|[]]. apply preserves_Ret.
Qed.
End LogInvariant.

Section ScriptInvariant.
Variable ev : env.
Variable I : trace -> Prop.
Hypothesis I_now :
  forall tr, I tr -> I (tr ++ [Call_now (outcome ev (length tr) (clock ev (length tr)))]).
Hypothesis I_log :
  forall tr l msg, script_message l msg -> I tr -> I (tr ++ [log_call ev (length tr) l msg]).
Hypothesis I_sleep :
  forall tr, I tr -> I (tr ++ [Call_sleep 30 (outcome ev (length tr) tt)]).

Lemma preserves_health_check : preserves ev I health_check.
Proof.
  apply preserves_while_True. unfold health_check_body.
  apply preserves_py_bind.
  { apply preserves_trigger. intros tr Htr. cbn. apply I_now, Htr. }
  intros now. apply preserves_py_bind.
  { apply (preserves_logger_log ev I script_message I_log). constructor. }
  intros _. apply preserves_trigger. intros tr Htr. cbn. apply I_sleep, Htr.
Qed.

Lemma preserves_main : preserves ev I main.
Proof.
  unfold main. apply preserves_py_bind.
  { apply (preserves_logger_log ev I script_message I_log). constructor. }
  intros _. apply preserves_try_except.
  - apply preserves_py_bind; [apply preserves_health_check | intros []].
  - apply (preserves_except_clauses ev I script_message I_log).
    intros l msg []; constructor.
Qed.

(** An invariant under each kind of call the script makes holds of every
    trace of the process. *)
Lemma script_invariant fuel : I [] -> I (calls (run_script fuel ev)).
Proof.
  intros H0. unfold run_script, script.
  change (String.eqb __name__ "__main__") with true. cbv iota.
  unfold asyncio_run.
  exact (preserves_bind ev I _ _ preserves_main (fun r => preserves_Ret ev I _) fuel [] H0).
Qed.
End ScriptInvariant.

Lemma script_calls ev fuel : Forall script_call (calls (run_script fuel ev)).
Proof.
  apply script_invariant; [| | |constructor]; intros; apply Forall_app; split; auto;
    repeat constructor; assumption.
Qed.

(** ** The log lines *)

Lemma string_append_empty s : (s ++ "")%string = s.
Proof. induction s as [|c s IH]; cbn; [reflexivity | rewrite IH; reflexivity]. Qed.

Lemma format_record_text rec :
  format_record rec =
  Some (asctime rec ++ " - " ++ name rec ++ " - " ++ levelname (lvl rec) ++ " - "
        ++ message rec)%string.
Proof.
  unfold format_record, basicConfig_format. cbn.
  rewrite string_append_empty. reflexivity.
Qed.

(** ** Invariants of the process *)

Section ProcessInvariant.
Variable ev : env.
Variable sig : sigint.
Variable I : trace -> Prop.
Hypothesis I_now : forall tr r, I tr -> I (tr ++ [Call_now r]).
Hypothesis I_log :
  forall tr t l msg r,
    script_message l msg -> I tr -> I (tr ++ [Call_log (mk_LogRecord t __name__ l msg) r]).
Hypothesis I_sleep : forall tr r, I tr -> I (tr ++ [Call_sleep 30 r]).

(** An invariant under each kind of call the script makes holds of every
    trace of the process, with or without a signal. *)
Lemma process_invariant fuel : I [] -> I (calls (run_process fuel ev sig)).
Proof.
  intros H0. destruct fuel as [|fuel]; [exact H0|].
  rewrite run_process_calls.
  assert (Hstart : I [start_call ev]).
  { apply (I_log [] _ _ _ _ sm_starting H0). }
  destruct (fault ev 0) as [e|] eqn:F0; [exact Hstart|].
  apply (after_loop_invariant ev I script_message).
  - intros tr l msg Hm Htr. apply I_log; assumption.
  - intros l msg []; constructor.
  - apply (preserves_health_check (cancelling ev sig) I).
    + intros tr Htr. apply I_now, Htr.
    + intros tr l msg Hm Htr. apply I_log; assumption.
    + intros tr Htr. apply I_sleep, Htr.
    + exact Hstart.
Qed.
End ProcessInvariant.

Lemma process_calls ev sig fuel : Forall script_call (calls (run_process fuel ev sig)).
Proof.
  apply process_invariant; [| | |constructor]; intros; apply Forall_app; split; auto;
    repeat constructor; assumption.
Qed.

(** ** Heartbeats and waits in turn *)

Lemma rhythm_app a b : rhythm (a ++ b) = rhythm a ++ rhythm b.
Proof.
  induction a as [|c a IH]; [reflexivity|].
  destruct c as [r|rec [e|u]|d r|key r|path data r|data r]; cbn [rhythm app];
    rewrite ?IH; try reflexivity.
  destruct (heartbeat_recordb rec); reflexivity.
Qed.

Lemma even_double m : Nat.even (2 * m) = true.
Proof.
  induction m as [|m IH]; [reflexivity|].
  replace (2 * S m) with (S (S (2 * m))) by lia. exact IH.
Qed.

Lemma alternation_beat m : alternation (S (2 * m)) = alternation (2 * m) ++ [Beat].
Proof. cbn [alternation]. rewrite even_double. reflexivity. Qed.

Lemma alternation_beat_wait m :
  alternation (2 * S m) = alternation (2 * m) ++ [Beat; Wait 30].
Proof.
  replace (2 * S m) with (S (S (2 * m))) by lia.
  change (alternation (S (S (2 * m))))
    with (alternation (S (2 * m)) ++ [if Nat.even (S (2 * m)) then Beat else Wait 30]).
  rewrite alternation_beat, <- app_assoc.
  replace (Nat.even (S (2 * m))) with false; [reflexivity|].
  rewrite Nat.even_succ, <- Nat.negb_even, even_double. reflexivity.
Qed.

(** What as much of a turn as the fuel pays for adds to the rhythm. *)
Lemma rhythm_turn ev k n :
  let s := firstn n (iteration ev k) in
  (rhythm s = [] \/ rhythm s = [Beat] \/ rhythm s = [Beat; Wait 30]) /\
  (Nat.leb (length (iteration ev k)) n = true -> iteration_result ev k = inr tt ->
   rhythm s = [Beat; Wait 30]).
Proof.
  cbv zeta. unfold iteration, iteration_result, log_call, outcome.
  destruct (fault ev k) as [e0|].
  { destruct n as [|[|n]]; cbn; split; auto; discriminate. }
  destruct (fault ev (S k)) as [e1|].
  { destruct n as [|[|[|n]]]; cbn; split; auto; discriminate. }
  destruct (fault ev (S (S k))) as [e2|].
  { destruct n as [|[|[|[|n]]]]; cbn [firstn rhythm length Nat.leb];
      rewrite ?heartbeat_message_recognised; split; auto; discriminate. }
  destruct n as [|[|[|[|n]]]]; cbn [firstn rhythm length Nat.leb];
    rewrite ?heartbeat_message_recognised; split; auto; discriminate.
Qed.

Lemma health_check_body_keeps_time ev fuel tr :
  beat_due tr ->
  keeps_time (calls (exec fuel ev tr health_check_body)) /\
  (result (exec fuel ev tr health_check_body) = Some (inr tt) ->
   beat_due (calls (exec fuel ev tr health_check_body))).
Proof.
  intros [m Hm]. rewrite exec_health_check_body. cbn [calls result].
  destruct (rhythm_turn ev (length tr) fuel) as [Hr Hfull]. cbv zeta in Hr, Hfull.
  unfold keeps_time, beat_due. rewrite rhythm_app, Hm. split.
  - destruct Hr as [-> | [-> | ->]].
    + exists (2 * m). rewrite app_nil_r. reflexivity.
    + exists (S (2 * m)). rewrite alternation_beat. reflexivity.
    + exists (2 * S m). rewrite alternation_beat_wait. reflexivity.
  - destruct (Nat.leb (length (iteration ev (length tr))) fuel); [|discriminate].
    intros H. inversion H as [Hres]. rewrite (Hfull eq_refl Hres).
    exists (S m). rewrite alternation_beat_wait. reflexivity.
Qed.

(** A logging call whose message is not a heartbeat is no event of the
    rhythm. *)
Lemma keeps_time_other_log tr rec r :
  heartbeat_recordb rec = false -> keeps_time tr -> keeps_time (tr ++ [Call_log rec r]).
Proof.
  intros Hrec [n Hn]. exists n. rewrite rhythm_app, Hn.
  destruct r as [e|u]; cbn [rhythm]; rewrite ?Hrec; apply app_nil_r.
Qed.

Lemma process_keeps_time ev sig fuel : keeps_time (calls (run_process fuel ev sig)).
Proof.
  assert (H0 : keeps_time []) by (exists 0; reflexivity).
  destruct fuel as [|fuel]; [exact H0|].
  rewrite run_process_calls.
  assert (Hstart : keeps_time [start_call ev]).
  { unfold start_call, log_call. apply (keeps_time_other_log []); [reflexivity | exact H0]. }
  destruct (fault ev 0) as [e|] eqn:F0; [exact Hstart|].
  apply (after_loop_invariant ev _ handler_message).
  - intros tr l msg Hm. apply keeps_time_other_log. destruct Hm; reflexivity.
  - auto.
  - apply (while_True_rule (cancelling ev sig) beat_due keeps_time).
    + intros f tr Htr. apply health_check_body_keeps_time, Htr.
    + exists 0. unfold start_call, log_call, outcome. rewrite F0. reflexivity.
Qed.

(** ** What a run depends on *)

Lemma logger_log_ignores_environ vars ev sig tr l msg :
  same_run (with_environ vars ev) sig ev sig tr (logger_log l msg).
Proof.
  unfold logger_log. destruct (isEnabledFor l); [|apply same_Ret].
  apply same_trigger. reflexivity.
Qed.

Lemma main_ignores_environ vars ev sig tr :
  same_run (with_environ vars ev) sig ev sig tr main.
Proof.
  unfold main, py_bind.
  apply same_bind; [apply logger_log_ignores_environ|].
  intros fuel [e|[]] _; cbn [propagate]; [apply same_Ret|].
  generalize (calls (exec_task fuel (with_environ vars ev) sig tr
                       (logger_info starting_message))).
  clear tr fuel. intros tr. unfold try_except, py_bind.
  apply same_bind.
  - apply same_bind.
    + apply (same_while_True _ _ _ _ (fun _ => True)); [|exact Logic.I].
      clear tr. intros tr _. split; [|auto].
      unfold health_check_body, py_bind, datetime_now, asyncio_sleep, call.
      apply same_after_call; [reflexivity|].
      intros tr1 [e|now] _; [apply same_Ret|]. cbn [propagate].
      apply same_bind; [apply logger_log_ignores_environ|].
      intros fuel [e|[]] _; cbn [propagate]; [apply same_Ret|].
      apply same_trigger. reflexivity.
    + intros fuel [e|[]] _. apply same_Ret.
  - intros fuel x _.
    generalize (calls (exec_task fuel (with_environ vars ev) sig tr
               (ITree.bind health_check
                  (propagate (fun v : Empty_set => match v return (py unit) with end))))).
    clear tr fuel. intros tr.
    destruct x as [e|[]]; cbn [handle]; [|apply same_Ret].
    unfold except_clauses.
    destruct e; cbn [select_clause isinstance]; try apply same_Ret.
    + apply logger_log_ignores_environ.
    + unfold py_bind. apply same_bind; [apply logger_log_ignores_environ|].
      intros fuel [e|[]] _; apply same_Ret.
Qed.

(** C6. In every run, with or without a signal: every call to the sleep
    primitive passes the delay 30; heartbeat lines and sleeps come in
    turn, a heartbeat first, so that between two successive heartbeat
    lines the process sleeps exactly once, for 30 seconds; and the run is
    the same whatever the variables of the process environment are: the
    loop takes no input from there. *)
Theorem interval_is_the_constant_30 ev sig fuel :
  Forall (fun delay => delay = 30%Z) (sleeps (calls (run_process fuel ev sig))) /\
  (exists n, rhythm (calls (run_process fuel ev sig)) = alternation n) /\
  (forall vars, run_process fuel (with_environ vars ev) sig = run_process fuel ev sig).
Proof.
  split; [|split].
  - pose proof (process_calls ev sig fuel) as H.
    induction H as [|c tr Hc _ IH]; [constructor|].
    destruct Hc; cbn [sleeps]; auto.
  - apply process_keeps_time.
  - intros vars. unfold run_process.
    rewrite (main_ignores_environ vars ev sig [] fuel). reflexivity.
Qed.

Example rhythm_of_a_quiet_run :
  rhythm (calls (run_process 11 quiet None)) = [Beat; Wait 30; Beat; Wait 30; Beat].
Proof. reflexivity. Qed.

Example sleeps_of_two_turns : sleeps (calls (run_script 9 quiet)) = [30; 30]%Z.
Proof. reflexivity. Qed.

(** ** Effects of loading and of a run *)


Lemma load_module_again st : load_module (load_module st) = load_module st.
Proof.
  unfold load_module, logging_basicConfig, logging_getLogger.
  destruct st as [l hs names]. cbn [root_handlers root_level loggers].
  destruct hs as [|h hs]; cbn [root_handlers root_level loggers];
    destruct (existsb (String.eqb __name__) names) eqn:E;
    cbn [root_handlers root_level loggers existsb]; rewrite ?E; try reflexivity;
    rewrite String.eqb_refl; reflexivity.
Qed.


(** ** The first heartbeat and the first sleep *)

Lemma heartbeat_then_sleep_app ev tr s :
  heartbeat_then_sleep ev tr -> heartbeat_then_sleep ev (tr ++ s).
Proof. intros (u & rest & ->). exists u, (rest ++ s). reflexivity. Qed.

Lemma no_sleep_or_heartbeat_first_log ev tr rec r :
  no_sleep_or_heartbeat_first ev tr ->
  no_sleep_or_heartbeat_first ev (tr ++ [Call_log rec r]).
Proof.
  intros [H|H]; [left | right; apply heartbeat_then_sleep_app, H].
  rewrite sleeps_app, H. reflexivity.
Qed.

Lemma health_check_body_first_sleep ev fuel tr :
  fault ev 0 = None ->
  tr = [start_call ev] \/ heartbeat_then_sleep ev tr ->
  no_sleep_or_heartbeat_first ev (calls (exec fuel ev tr health_check_body)) /\
  (result (exec fuel ev tr health_check_body) = Some (inr tt) ->
   calls (exec fuel ev tr health_check_body) = [start_call ev] \/
   heartbeat_then_sleep ev (calls (exec fuel ev tr health_check_body))).
Proof.
  intros F0 Htr. rewrite exec_health_check_body. cbn [calls result].
  destruct Htr as [-> | Htr].
  2:{ split; [right | intros _; right]; apply heartbeat_then_sleep_app, Htr. }
  cbn [length]. unfold start_call. unfold iteration, iteration_result, log_call, outcome.
  rewrite F0.
  destruct (fault ev 1) as [e1|].
  { split; [left|]; destruct fuel as [|fuel]; cbn; rewrite ?firstn_nil;
      try reflexivity; intros H; discriminate. }
  destruct (fault ev 2) as [e2|].
  { split; [left|]; destruct fuel as [|[|fuel]]; cbn; rewrite ?firstn_nil;
      try reflexivity; intros H; discriminate. }
  destruct fuel as [|[|[|fuel]]]; cbn; rewrite ?firstn_nil.
  - split; [left; reflexivity | discriminate].
  - split; [left; reflexivity | discriminate].
  - split; [left; reflexivity | discriminate].
  - split; [right | intros _; right]; eexists _, []; reflexivity.
Qed.

(** A run only adds calls to the trace it starts from. *)
Lemma exec_extends {R} fuel ev tr (t : itree pyE R) :
  exists more, calls (exec fuel ev tr t) = tr ++ more.
Proof.
  revert tr t. induction fuel as [|f IH]; intros tr t; rewrite exec_unfold;
    destruct (observe t) as [r|t'|X e k]; cbn [calls];
    try (exists []; rewrite app_nil_r; reflexivity).
  - apply IH.
  - destruct (respond ev tr e) as [tr' x] eqn:Hr.
    assert (Htr : exists c, tr' = tr ++ [c]).
    { destruct e; cbn in Hr; inversion Hr; eexists; reflexivity. }
    destruct Htr as [c ->]. destruct (IH (tr ++ [c]) (k x)) as [more ->].
    exists (c :: more). rewrite <- app_assoc. reflexivity.
Qed.

Lemma after_loop_extends ev r : exists more, calls (after_loop ev r) = calls r ++ more.
Proof.
  apply (after_loop_invariant ev (fun tr => exists more, tr = calls r ++ more) handler_message).
  - intros tr l msg _ [more ->]. eexists. rewrite <- app_assoc. reflexivity.
  - auto.
  - exists []. rewrite app_nil_r. reflexivity.
Qed.

Lemma process_first_sleep ev sig fuel :
  no_sleep_or_heartbeat_first ev (calls (run_process fuel ev sig)).
Proof.
  destruct fuel as [|fuel]; [left; reflexivity|].
  rewrite run_process_calls.
  destruct (fault ev 0) as [e|] eqn:F0; [left; reflexivity|].
  apply (after_loop_invariant ev _ handler_message).
  - intros tr l msg _. apply no_sleep_or_heartbeat_first_log.
  - auto.
  - rewrite <- (start_call_cancelling ev sig).
    assert (F0' : fault (cancelling ev sig) 0 = None) by (rewrite cancelling_fault_0; exact F0).
    apply (while_True_rule (cancelling ev sig)
             (fun tr => tr = [start_call (cancelling ev sig)] \/
                        heartbeat_then_sleep (cancelling ev sig) tr)
             (no_sleep_or_heartbeat_first (cancelling ev sig))).
    + intros f tr Htr. apply health_check_body_first_sleep; assumption.
    + left. reflexivity.
Qed.

(** The loop starts with a heartbeat: when the first three calls do not
    fail, they are the startup line, a reading of the clock and the first
    heartbeat line, whatever signal arrives. *)
Lemma process_first_heartbeat ev sig fuel :
  no_fault ev 0 3 ->
  3 <= fuel ->
  exists rest,
    calls (run_process fuel ev sig) =
      [ Call_log (mk_LogRecord (log_time ev 0) "__main__" INFO "Starting Trading System...")
                 (inr tt);
        Call_now (inr (clock ev 1));
        Call_log (mk_LogRecord (log_time ev 2) "__main__" INFO
                    ("System healthy at " ++ isoformat (clock ev 1))%string) (inr tt) ]
      ++ rest.
Proof.
  intros Hn Hfuel.
  assert (F0 : fault ev 0 = None) by (apply (Hn 0); lia).
  assert (F1 : fault ev 1 = None) by (apply (Hn 1); lia).
  assert (F2 : fault ev 2 = None) by (apply (Hn 2); lia).
  set (ev' := cancelling ev sig).
  assert (F1' : fault ev' 1 = None)
    by (unfold ev'; rewrite cancelling_fault_other by (cbn; lia); exact F1).
  assert (F2' : fault ev' 2 = None)
    by (unfold ev'; rewrite cancelling_fault_other by (cbn; lia); exact F2).
  destruct fuel as [|[|[|f]]]; try lia.
  rewrite run_process_calls, F0. fold ev'.
  destruct (after_loop_extends ev (exec (S (S f)) ev' [start_call ev] health_check))
    as [more ->].
  set (turn2 := [start_call ev; Call_now (inr (clock ev' 1));
                 Call_log (mk_LogRecord (log_time ev' 2) __name__ INFO
                             (heartbeat_message (clock ev' 1))) (inr tt)]).
  assert (Hloop : exists m,
             calls (exec (S (S f)) ev' [start_call ev] health_check) = turn2 ++ m).
  { unfold health_check, while_True. rewrite exec_iter, exec_bind, exec_health_check_body.
    cbn [length]. unfold iteration, iteration_result, log_call, outcome. rewrite F1', F2'.
    cbn [firstn length Nat.leb Nat.sub app].
    unfold then_run at 1 2. cbn [result calls fuel_left].
    destruct f as [|f]; cbn [firstn Nat.leb]; rewrite ?firstn_nil.
    { exists []. reflexivity. }
    destruct (match fault ev' 3 with Some e => inl e | None => inr tt end) as [e|[]];
      cbn [loop_step]; rewrite exec_Ret; cbn [result calls fuel_left next_turn].
    - rewrite exec_Ret. cbn [calls]. eexists [_]. reflexivity.
    - match goal with
      | |- context [exec ?n ev' ?tr ?t] => destruct (exec_extends n ev' tr t) as [m ->]
      end.
      eexists (_ :: m). reflexivity. }
  destruct Hloop as [m ->]. exists (m ++ more). rewrite <- app_assoc.
  unfold turn2, start_call, log_call, outcome. rewrite F0. reflexivity.
Qed.

(** C10. In every run, with or without a signal: either the process has
    not called sleep at all, or its trace begins with the startup line, one
    reading of the clock, the first heartbeat line written with that
    reading, and only then the first sleep. And the loop does start with a
    heartbeat: when none of the first three calls fails and the process has
    made them, they are the startup line, the reading of the clock and the
    first heartbeat line, with no sleep before it. *)
Theorem heartbeat_before_first_sleep ev sig fuel :
  (sleeps (calls (run_process fuel ev sig)) = [] \/
   exists u rest,
     calls (run_process fuel ev sig) =
       Call_log (mk_LogRecord (log_time ev 0) "__main__" INFO "Starting Trading System...")
                (inr tt)
       :: Call_now (inr (clock ev 1))
       :: Call_log (mk_LogRecord (log_time ev 2) "__main__" INFO
                      ("System healthy at " ++ isoformat (clock ev 1))%string) (inr tt)
       :: Call_sleep 30 u
       :: rest) /\
  (no_fault ev 0 3 -> 3 <= fuel ->
   exists rest,
     calls (run_process fuel ev sig) =
       Call_log (mk_LogRecord (log_time ev 0) "__main__" INFO "Starting Trading System...")
                (inr tt)
       :: Call_now (inr (clock ev 1))
       :: Call_log (mk_LogRecord (log_time ev 2) "__main__" INFO
                      ("System healthy at " ++ isoformat (clock ev 1))%string) (inr tt)
       :: rest).
Proof.
  split.
  - exact (process_first_sleep ev sig fuel).
  - intros Hn Hfuel. exact (process_first_heartbeat ev sig fuel Hn Hfuel).
Qed.

Lemma heartbeat_before_first_sleep_witness :
  exists rest,
    calls (run_process 3 quiet (Some 0)) =
      Call_log (mk_LogRecord (log_time quiet 0) "__main__" INFO "Starting Trading System...")
               (inr tt)
      :: Call_now (inr (clock quiet 1))
      :: Call_log (mk_LogRecord (log_time quiet 2) "__main__" INFO
                     ("System healthy at " ++ isoformat (clock quiet 1))%string) (inr tt)
      :: rest.
Proof.
  destruct (heartbeat_before_first_sleep quiet (Some 0) 3) as [_ H].
  apply H.
  - intros j Hj. reflexivity.
  - lia.
Defined.

Example first_calls_of_a_quiet_run :
  firstn 4 (calls (run_script 9 quiet)) = start_call quiet :: tick quiet 1.
Proof. reflexivity. Qed.

(** ** The round trip of a timestamp *)

Lemma digit_value_digit d : (0 <= d < 10)%Z -> digit_value (digit d) = Some d.
Proof.
  intros H.
  assert (Hd : (d = 0 \/ d = 1 \/ d = 2 \/ d = 3 \/ d = 4 \/ d = 5 \/ d = 6 \/ d = 7 \/
                d = 8 \/ d = 9)%Z) by lia.
  repeat (destruct Hd as [->|Hd]; [reflexivity|]). subst d. reflexivity.
Qed.

Lemma read_digits_last w acc s :
  read_digits (S w) acc s =
  and_then (read_digits w acc s) (fun '(a, s') =>
    match s' with
    | String c s'' =>
        match digit_value c with
        | Some d => Some (a * 10 + d, s'')%Z
        | None => None
        end
    | EmptyString => None
    end).
Proof.
  revert acc s. induction w as [|w IH]; intros acc s.
  - cbn. destruct s as [|c s]; [reflexivity|]. destruct (digit_value c); reflexivity.
  - cbn [read_digits] in *. destruct s as [|c s]; [reflexivity|].
    destruct (digit_value c) as [d|]; [|reflexivity]. apply IH.
Qed.

Lemma string_append_assoc (a b c : string) : ((a ++ b) ++ c = a ++ (b ++ c))%string.
Proof. induction a as [|x a IH]; cbn; [reflexivity | rewrite IH; reflexivity]. Qed.

Lemma read_digits_zpad w n acc rest :
  (0 <= n < 10 ^ Z.of_nat w)%Z ->
  read_digits w acc (zpad w n ++ rest)%string = Some (acc * 10 ^ Z.of_nat w + n, rest)%Z.
Proof.
  revert n rest. induction w as [|w IH]; intros n rest Hn.
  - cbn in *. f_equal. f_equal. lia.
  - rewrite Nat2Z.inj_succ, Z.pow_succ_r in * by lia.
    rewrite read_digits_last. cbn [zpad]. rewrite string_append_assoc.
    rewrite IH by (split; [apply Z.div_pos; lia | apply Z.div_lt_upper_bound; lia]).
    cbn [and_then append].
    rewrite digit_value_digit by (apply Z.mod_pos_bound; lia).
    f_equal. f_equal. pose proof (Z.div_mod n 10 ltac:(lia)). lia.
Qed.

Lemma parse_isoformat_isoformat d :
  valid_datetime d -> parse_isoformat (isoformat d) = Some d.
Proof.
  destruct d as [y mo dd h mi sec us].
  unfold valid_datetime, isoformat, parse_isoformat. cbn [year month day hour minute second microsecond].
  intros (Hy & Hmo & Hd & Hh & Hmi & Hs & Hus).
  rewrite read_digits_zpad by (cbn; lia). cbn [and_then append expect Ascii.eqb Bool.eqb].
  rewrite read_digits_zpad by (cbn; lia). cbn [and_then append expect Ascii.eqb Bool.eqb].
  rewrite read_digits_zpad by (cbn; lia). cbn [and_then append expect Ascii.eqb Bool.eqb].
  rewrite read_digits_zpad by (cbn; lia). cbn [and_then append expect Ascii.eqb Bool.eqb].
  rewrite read_digits_zpad by (cbn; lia). cbn [and_then append expect Ascii.eqb Bool.eqb].
  rewrite read_digits_zpad by (cbn; lia). cbn [and_then append expect Ascii.eqb Bool.eqb].
  cbn [Z.mul Z.add Z.pow Z.of_nat].
  destruct (Z.eqb_spec us 0) as [->|Hne].
  - reflexivity.
  - cbn [append Ascii.eqb Bool.eqb].
    rewrite <- (string_append_empty (zpad 6 us)).
    rewrite read_digits_zpad by (cbn; lia). cbn [and_then].
    replace (0 * 10 ^ Z.of_nat 6 + us)%Z with us by lia.
    destruct (Z.eqb_spec us 0); [contradiction | reflexivity].
Qed.

Example parse_sample :
  parse_isoformat "2024-01-01T09:00:30.000250" = Some (mk_datetime 2024 1 1 9 0 30 250).
Proof. reflexivity. Qed.

(** ** Successive timestamps *)

Lemma stamps_app a b : stamps (a ++ b) = stamps a ++ stamps b.
Proof. apply flat_map_app. Qed.

Lemma sorted_snoc (R : datetime -> datetime -> Prop) l y :
  StronglySorted R l -> Forall (fun x => R x y) l -> StronglySorted R (l ++ [y]).
Proof.
  intros Hs Hy. induction Hs as [|x l Hs IH Hx]; cbn.
  - constructor; constructor.
  - inversion Hy; subst. constructor; [apply IH; assumption|].
    apply Forall_app. split; [assumption | constructor; [assumption | constructor]].
Qed.

Lemma embedded_timestamp_heartbeat t who l now :
  valid_datetime now ->
  embedded_timestamp (mk_LogRecord t who l (heartbeat_message now)) = Some now.
Proof. intros H. unfold embedded_timestamp. cbn. apply parse_isoformat_isoformat, H. Qed.

(** What a prefix of a turn adds to the log: nothing, or one heartbeat
    line that carries the reading of that turn. *)
Lemma sink_iteration_prefix ev k n :
  sink (firstn n (iteration ev k)) = [] \/
  sink (firstn n (iteration ev k)) =
    [mk_LogRecord (log_time ev (S k)) __name__ INFO (heartbeat_message (clock ev k))].
Proof.
  unfold iteration, log_call, outcome.
  destruct (fault ev k); [left; destruct n as [|[|n]]; reflexivity|].
  destruct (fault ev (S k)); [left; destruct n as [|[|[|n]]]; reflexivity|].
  destruct n as [|[|[|[|n]]]]; cbn; auto.
Qed.

Lemma stamps_follow_clock_quiet ev tr s :
  stamps (sink s) = [] -> filter heartbeat_recordb (sink s) = [] ->
  stamps_follow_clock ev tr -> stamps_follow_clock ev (tr ++ s).
Proof.
  intros Hs Hf (H1 & H2 & H3). unfold stamps_follow_clock.
  rewrite sink_app, stamps_app, filter_app, Hs, Hf, !app_nil_r.
  split; [exact H1|]. split; [|exact H3].
  eapply Forall_impl; [|exact H2]. intros d (i & Hi & ->). exists i.
  rewrite length_app. split; [lia | reflexivity].
Qed.

Lemma stamps_follow_clock_log ev tr l msg :
  handler_message l msg \/ (l = INFO /\ msg = starting_message) ->
  stamps_follow_clock ev tr ->
  stamps_follow_clock ev (tr ++ [log_call ev (length tr) l msg]).
Proof.
  intros Hm. unfold log_call.
  apply stamps_follow_clock_quiet;
    destruct (outcome ev (length tr) tt) as [e|u]; try reflexivity;
    destruct Hm as [[|e]|[-> ->]]; reflexivity.
Qed.

Lemma stamps_follow_clock_body ev :
  (forall k, valid_datetime (clock ev k)) ->
  (forall i j, i <= j -> dt_le (clock ev i) (clock ev j)) ->
  preserves ev (stamps_follow_clock ev) health_check_body.
Proof.
  intros Hvalid Hmono fuel tr Htr. rewrite exec_health_check_body. cbn [calls].
  destruct (sink_iteration_prefix ev (length tr) fuel) as [Hs|Hs].
  - apply stamps_follow_clock_quiet; [rewrite Hs; reflexivity .. | exact Htr].
  - destruct Htr as (H1 & H2 & H3). unfold stamps_follow_clock.
    rewrite sink_app, stamps_app, filter_app, Hs.
    assert (Hst : stamps [mk_LogRecord (log_time ev (S (length tr))) __name__ INFO
                            (heartbeat_message (clock ev (length tr)))]
                  = [clock ev (length tr)]).
    { unfold stamps. cbn [flat_map]. rewrite embedded_timestamp_heartbeat by apply Hvalid.
      reflexivity. }
    rewrite Hst. split; [|split].
    + apply sorted_snoc; [exact H1|].
      eapply Forall_impl; [|exact H2]. intros d (i & Hi & ->). apply Hmono. lia.
    + apply Forall_app. split.
      * eapply Forall_impl; [|exact H2]. intros d (i & Hi & ->). exists i.
        rewrite length_app. split; [lia | reflexivity].
      * constructor; [|constructor]. exists (length tr). rewrite length_app.
        assert (Hlen : 1 <= length (firstn fuel (iteration ev (length tr)))).
        { destruct (firstn fuel (iteration ev (length tr))); [discriminate Hs | cbn; lia]. }
        split; [lia | reflexivity].
    + rewrite !length_app, H3. reflexivity.
Qed.

(** C7 (amended). When the readings of the clock are valid datetimes and
    do not decrease from one call to a later one, the timestamps carried
    by the heartbeat lines of the log, in the order the lines were written,
    do not decrease; every heartbeat line carries a timestamp, and each
    timestamp is a reading of the clock. *)
Theorem heartbeat_timestamps_nondecreasing ev fuel :
  (forall k, valid_datetime (clock ev k)) ->
  (forall i j, i <= j -> dt_le (clock ev i) (clock ev j)) ->
  StronglySorted dt_le (stamps (sink (calls (run_script fuel ev)))) /\
  length (stamps (sink (calls (run_script fuel ev)))) =
    length (filter heartbeat_recordb (sink (calls (run_script fuel ev)))) /\
  Forall (fun d => exists i, d = clock ev i) (stamps (sink (calls (run_script fuel ev)))).
Proof.
  intros Hvalid Hmono.
  assert (H0 : stamps_follow_clock ev []).
  { repeat split; constructor. }
  assert (H : stamps_follow_clock ev (calls (run_script fuel ev))).
  { destruct fuel as [|fuel]; [exact H0|].
    rewrite run_script_unfold.
    assert (Hstart : stamps_follow_clock ev [start_call ev]).
    { apply (stamps_follow_clock_log ev [] INFO starting_message); [right; auto | exact H0]. }
    destruct (fault ev 0) as [e|]; [exact Hstart|].
    apply (after_loop_invariant ev _ handler_message).
    - intros tr l msg Hm. apply stamps_follow_clock_log. left. exact Hm.
    - auto.
    - exact (preserves_while_True ev _ _ (stamps_follow_clock_body ev Hvalid Hmono)
               fuel _ Hstart). }
  destruct H as (H1 & H2 & H3). split; [exact H1|]. split; [exact H3|].
  eapply Forall_impl; [|exact H2]. intros d (i & _ & Hd). exists i. exact Hd.
Qed.

Lemma sample_clock_valid k : valid_datetime (sample_clock k).
Proof.
  unfold valid_datetime, sample_clock. cbn [year month day hour minute second microsecond].
  pose proof (Z.div_pos (Z.of_nat k) 3 ltac:(lia) ltac:(lia)).
  Z.div_mod_to_equations. lia.
Qed.

Lemma sample_clock_monotone i j : i <= j -> dt_le (sample_clock i) (sample_clock j).
Proof.
  intros Hij. unfold dt_le, dt_leb, dt_key, sample_clock, lex_leb.
  cbn [year month day hour minute second microsecond].
  assert (H : (Z.min 119 (Z.of_nat i / 3) <= Z.min 119 (Z.of_nat j / 3))%Z).
  { apply Z.min_le_compat_l, Z.div_le_mono; lia. }
  assert (H0 : (0 <= Z.min 119 (Z.of_nat i / 3))%Z).
  { pose proof (Z.div_pos (Z.of_nat i) 3 ltac:(lia) ltac:(lia)). lia. }
  set (a := Z.min 119 (Z.of_nat i / 3)) in *. set (b := Z.min 119 (Z.of_nat j / 3)) in *.
  rewrite !Z.ltb_irrefl, !Z.eqb_refl. cbn [orb andb].
  destruct (Z.ltb_spec (a / 2) (b / 2)) as [Hlt|Hge]; [reflexivity|]. cbn [orb].
  destruct (Z.eqb_spec (a / 2) (b / 2)) as [Heq|Hne];
    [|exfalso; Z.div_mod_to_equations; lia]. cbn [andb].
  destruct (Z.ltb_spec (30 * (a mod 2)) (30 * (b mod 2))) as [Hlt|Hge2]; [reflexivity|].
  cbn [orb].
  destruct (Z.eqb_spec (30 * (a mod 2)) (30 * (b mod 2))) as [Heq2|Hne2]; [reflexivity|].
  exfalso. Z.div_mod_to_equations. lia.
Qed.

Lemma heartbeat_timestamps_nondecreasing_witness :
  StronglySorted dt_le (stamps (sink (calls (run_script 13 quiet)))) /\
  length (stamps (sink (calls (run_script 13 quiet)))) = 3.
Proof.
  destruct (heartbeat_timestamps_nondecreasing quiet 13) as (H1 & H2 & _).
  - intros k. apply sample_clock_valid.
  - intros i j Hij. apply sample_clock_monotone, Hij.
  - split; [exact H1 | rewrite H2; reflexivity].
Defined.

(** C7 as stated fails when the wall clock is set back. The first turn
    reads 01:59:45, the second, 30 seconds later and after the end of
    daylight saving, 01:00:15: the second heartbeat line carries the
    earlier timestamp. *)
Lemma set_back_clock_timestamps_decrease :
  stamps (sink (calls (run_script 9 set_back))) =
    [mk_datetime 2024 11 3 1 59 45 0; mk_datetime 2024 11 3 1 0 15 0] /\
  map message (sink (calls (run_script 9 set_back))) =
    ["Starting Trading System...";
     "System healthy at 2024-11-03T01:59:45";
     "System healthy at 2024-11-03T01:00:15"] /\
  dt_leb (mk_datetime 2024 11 3 1 59 45 0) (mk_datetime 2024 11 3 1 0 15 0) = false.
Proof. vm_compute. repeat split. Qed.

(** ** The order of the log *)

Lemma startup_then_heartbeats_body ev :
  preserves ev (startup_then_heartbeats ev) health_check_body.
Proof.
  intros fuel tr (beats & Hs & Hb). rewrite exec_health_check_body. cbn [calls].
  unfold startup_then_heartbeats. rewrite sink_app, Hs.
  destruct (sink_iteration_prefix ev (length tr) fuel) as [-> | ->].
  - exists beats. rewrite app_nil_r. auto.
  - exists (beats ++ [mk_LogRecord (log_time ev (S (length tr))) __name__ INFO
                        (heartbeat_message (clock ev (length tr)))]).
    split; [reflexivity|]. apply Forall_app. split; [exact Hb|].
    repeat constructor. cbn. eauto.
Qed.

Lemma after_loop_out_of_fuel ev tr e :
  calls (after_loop ev (mk_run tr 0 (Some (inl e)))) = tr.
Proof.
  unfold after_loop, then_run. cbn [result calls fuel_left propagate].
  rewrite exec_Ret. cbn [result calls fuel_left handle].
  destruct (select_clause except_clauses e) as [h|] eqn:Hsel.
  - unfold except_clauses in Hsel.
    destruct e; cbn [select_clause isinstance] in Hsel; inversion Hsel; subst; clear Hsel.
    + unfold logger_info, logger_log, call. change (isEnabledFor INFO) with true. cbv iota.
      rewrite exec_out_of_fuel. reflexivity.
    + unfold py_bind, logger_error, logger_log, call. change (isEnabledFor ERROR) with true.
      cbv iota. rewrite exec_bind, exec_out_of_fuel. reflexivity.
  - unfold raise. rewrite exec_Ret. cbn [result calls fuel_left]. rewrite exec_Ret. reflexivity.
Qed.

(** After the loop the log grows by at most one closing line. *)
Lemma after_loop_sink ev r :
  exists final,
    sink (calls (after_loop ev r)) = sink (calls r) ++ final /\ closing final.
Proof.
  destruct r as [tr f [[e|[]]|]].
  2:{ exists []. rewrite after_loop_running, app_nil_r. split; [reflexivity | left; reflexivity]. }
  destruct f as [|f].
  { exists []. rewrite after_loop_out_of_fuel, app_nil_r.
    split; [reflexivity | left; reflexivity]. }
  destruct e as [|code| |detail].
  - rewrite after_loop_KeyboardInterrupt. cbn [calls]. rewrite sink_app.
    unfold log_call. destruct (outcome ev (length tr) tt) as [e|u]; cbn [sink].
    + exists []. split; [reflexivity | left; reflexivity].
    + eexists. split; [reflexivity|]. right. left. eexists. reflexivity.
  - rewrite after_loop_uncaught by reflexivity. exists []. cbn [calls].
    rewrite app_nil_r. split; [reflexivity | left; reflexivity].
  - rewrite after_loop_uncaught by reflexivity. exists []. cbn [calls].
    rewrite app_nil_r. split; [reflexivity | left; reflexivity].
  - rewrite after_loop_Exception. cbn [calls]. rewrite sink_app.
    unfold log_call. destruct (outcome ev (length tr) tt) as [e|u]; cbn [sink].
    + exists []. split; [reflexivity | left; reflexivity].
    + eexists. split; [reflexivity|]. right. right.
      exists (log_time ev (length tr)), (Exception detail). reflexivity.
Qed.

Lemma run_script_ordered_log ev fuel : ordered_log ev (sink (calls (run_script fuel ev))).
Proof.
  destruct fuel as [|fuel]; [left; reflexivity|].
  rewrite run_script_unfold.
  destruct (fault ev 0) as [e|] eqn:F0.
  { left. unfold start_call, log_call, outcome. rewrite F0. reflexivity. }
  assert (Hloop : startup_then_heartbeats ev
                    (calls (exec fuel ev [start_call ev] health_check))).
  { refine (preserves_while_True ev _ _ (startup_then_heartbeats_body ev) fuel _ _).
    exists []. split; [apply (start_call_sink ev F0) | constructor]. }
  destruct Hloop as (beats & Hs & Hb).
  destruct (after_loop_sink ev (exec fuel ev [start_call ev] health_check))
    as (final & Hf & Hc).
  right. exists beats, final. rewrite Hf, Hs. auto.
Qed.

(** C4. Every line written to the log is the record rendered as
    [asctime - name - levelname - message], by the logger "__main__", and
    its message has one of four shapes: the startup notice, a heartbeat
    "System healthy at " followed by the ISO form of a datetime, the
    shutdown notice (all three at level INFO), or, at level ERROR,
    "System error: " followed by the text of an exception. The lines come
    in this order: the startup line first, then heartbeat lines only, then
    at most one closing line, the shutdown notice or the error. *)
Theorem log_line_format_and_shapes ev fuel :
  Forall (fun rec =>
    format_record rec =
      Some (asctime rec ++ " - " ++ name rec ++ " - " ++ levelname (lvl rec) ++ " - "
            ++ message rec)%string /\
    name rec = "__main__" /\
    ((lvl rec = INFO /\ message rec = "Starting Trading System...") \/
     (lvl rec = INFO /\ exists now, message rec = ("System healthy at " ++ isoformat now)%string) \/
     (lvl rec = INFO /\ message rec = "Shutting down Trading System...") \/
     (lvl rec = ERROR /\ exists e, message rec = ("System error: " ++ str e)%string)))
    (sink (calls (run_script fuel ev))) /\
  ordered_log ev (sink (calls (run_script fuel ev))).
Proof.
  split; [|apply run_script_ordered_log].
  pose proof (script_calls ev fuel) as H.
  induction H as [|c tr Hc _ IH]; [constructor|].
  destruct Hc as [r|t l msg [e|u] Hm|r]; cbn [sink]; try exact IH.
  constructor; [|exact IH].
  split; [apply format_record_text|]. split; [reflexivity|]. cbn [lvl message].
  destruct Hm; eauto 8.
Qed.

Example first_line_of_a_quiet_run :
  option_map format_record (hd_error (sink (calls (run_script 9 quiet)))) =
  Some (Some "2024-01-01 09:00:00,000 - __main__ - INFO - Starting Trading System...").
Proof. reflexivity. Qed.

(** * Further properties of the script *)

Lemma raising_at_no_fault k e : no_fault (raising_at k e) 0 k.
Proof.
  intros j Hj. cbn. destruct (Nat.eqb_spec j k) as [E|E]; [lia | reflexivity].
Qed.

(** ** How a run ends *)

Lemma iteration_raises_last ev k e :
  iteration_result ev k = inl e ->
  fault ev (k + length (iteration ev k) - 1) = Some e.
Proof.
  unfold iteration_result, iteration, outcome.
  destruct (fault ev k) as [e0|] eqn:F0.
  { intros H. inversion H; subst. cbn [length]. replace (k + 1 - 1) with k by lia. exact F0. }
  destruct (fault ev (S k)) as [e1|] eqn:F1.
  { intros H. inversion H; subst. cbn [length]. replace (k + 2 - 1) with (S k) by lia. exact F1. }
  destruct (fault ev (S (S k))) as [e2|] eqn:F2; [|discriminate].
  intros H. inversion H; subst. cbn [length]. replace (k + 3 - 1) with (S (S k)) by lia. exact F2.
Qed.

(** The loop ends only on an exception, raised by the last call it made. *)
Lemma health_check_exit ev fuel :
  forall tr x,
    result (exec fuel ev tr health_check) = Some x ->
    exists e k,
      x = inl e /\ fault ev k = Some e /\
      S k = length (calls (exec fuel ev tr health_check)) /\ length tr <= k.
Proof.
  induction fuel as [fuel IH] using lt_wf_ind. intros tr x.
  rewrite exec_health_check. cbv zeta.
  pose proof (iteration_length ev (length tr)) as Hlen.
  destruct (Nat.leb (length (iteration ev (length tr))) fuel) eqn:Hf; [|discriminate].
  apply Nat.leb_le in Hf.
  destruct (iteration_result ev (length tr)) as [e|[]] eqn:Hr.
  - cbn [result calls]. intros H. inversion H; subst.
    exists e, (length tr + length (iteration ev (length tr)) - 1).
    split; [reflexivity|]. split; [apply iteration_raises_last, Hr|].
    rewrite length_app. lia.
  - destruct (fuel - length (iteration ev (length tr))) as [|f] eqn:Hsub; [discriminate|].
    intros H. destruct (IH f ltac:(lia) _ _ H) as (e & k & Hx & Hk & Hl & Hle).
    exists e, k. rewrite length_app in Hle. repeat split; auto. lia.
Qed.

Lemma after_loop_caught_out_of_fuel ev tr e :
  caught e = true -> result (after_loop ev (mk_run tr 0 (Some (inl e)))) = None.
Proof.
  intros Hc. unfold after_loop, then_run. cbn [result calls fuel_left propagate].
  rewrite exec_Ret. cbn [result calls fuel_left handle].
  unfold except_clauses.
  destruct e; cbn [select_clause isinstance]; try discriminate Hc.
  - unfold logger_info, logger_log, call. change (isEnabledFor INFO) with true. cbv iota.
    rewrite exec_out_of_fuel. reflexivity.
  - unfold py_bind, logger_error, logger_log, call. change (isEnabledFor ERROR) with true.
    cbv iota. rewrite exec_bind, exec_out_of_fuel. reflexivity.
Qed.

Lemma uncaught_classes e :
  caught e = false ->
  isinstance e cls_KeyboardInterrupt = false /\ isinstance e cls_Exception = false.
Proof. unfold caught. intros H. apply orb_false_iff in H. exact H. Qed.

(** How a run of the script can have ended. *)
Lemma run_ended ev fuel s :
  result (run_script fuel ev) = Some s ->
  (s = Exited 0 /\
   (exists k, fault ev k = Some KeyboardInterrupt) /\
   exists pre rec,
     sink (calls (run_script fuel ev)) = pre ++ [rec] /\
     lvl rec = INFO /\ message rec = "Shutting down Trading System...") \/
  (s = Exited 1 /\
   exists detail,
     (exists k, fault ev k = Some (Exception detail)) /\
     exists pre rec,
       sink (calls (run_script fuel ev)) = pre ++ [rec] /\
       lvl rec = ERROR /\ message rec = ("System error: " ++ detail)%string) \/
  (exists e k,
     fault ev k = Some e /\
     S k = length (calls (run_script fuel ev)) /\
     s = interpreter_exit (inl e)).
Proof.
  destruct fuel as [|fuel]; [discriminate|].
  rewrite run_script_unfold.
  destruct (fault ev 0) as [e0|] eqn:F0.
  { cbn [result calls length]. intros H. inversion H; subst.
    right. right. exists e0, 0. auto. }
  destruct (exec fuel ev [start_call ev] health_check) as [tr f res] eqn:Hrun.
  pose proof (health_check_exit ev fuel [start_call ev]) as Hexit.
  rewrite Hrun in Hexit. cbn [result calls] in Hexit.
  destruct res as [x|]; [|rewrite after_loop_running; discriminate].
  destruct (Hexit x eq_refl) as (e & k & -> & Hk & Hl & _).
  destruct (caught e) eqn:Hc.
  - destruct f as [|f]; [rewrite (after_loop_caught_out_of_fuel ev tr e Hc); discriminate|].
    destruct e as [|code| |detail]; try discriminate Hc.
    + rewrite after_loop_KeyboardInterrupt. cbn [result calls].
      unfold outcome, log_call. destruct (fault ev (length tr)) as [e'|] eqn:F'.
      * intros H. inversion H; subst. right. right.
        exists e', (length tr). rewrite length_snoc. auto.
      * intros H. inversion H; subst. left. split; [reflexivity|].
        split; [exists k; exact Hk|].
        rewrite sink_app. cbn [sink]. unfold outcome. rewrite F'. eauto.
    + rewrite after_loop_Exception. cbn [result calls].
      unfold log_call, outcome. destruct (fault ev (length tr)) as [e'|] eqn:F'.
      * intros H. inversion H; subst. right. right.
        exists e', (length tr). rewrite length_snoc. auto.
      * intros H. inversion H; subst. right. left. split; [reflexivity|].
        exists detail. split; [exists k; exact Hk|].
        rewrite sink_app. cbn [sink]. eauto.
  - destruct (uncaught_classes e Hc) as [H1 H2].
    rewrite (after_loop_uncaught ev tr f e H1 H2). cbn [result calls].
    intros H. inversion H; subst. right. right. exists e, k. auto.
Qed.

(** X1. A run that no signal meets and in which no call raises
    [SystemExit] has ended, if it has, in one of three ways: through a
    normal return of [main], the shutdown notice being the last line of
    the log and a [KeyboardInterrupt] having been raised; through
    [sys.exit(1)], the "System error" line of a raised [Exception] being
    the last line; or with a traceback for an exception that no clause
    took, raised by the very last call the process made. The exit status
    is 0 in the first way only: the process never reports success without
    the shutdown notice as its last line. *)
Theorem run_ends_three_ways ev fuel s :
  result (run_script fuel ev) = Some s ->
  (forall k code, fault ev k <> Some (SystemExit code)) ->
  ((s = Exited 0 /\
    (exists k, fault ev k = Some KeyboardInterrupt) /\
    exists pre rec,
      sink (calls (run_script fuel ev)) = pre ++ [rec] /\
      lvl rec = INFO /\ message rec = "Shutting down Trading System...") \/
   (s = Exited 1 /\
    exists detail,
      (exists k, fault ev k = Some (Exception detail)) /\
      exists pre rec,
        sink (calls (run_script fuel ev)) = pre ++ [rec] /\
        lvl rec = ERROR /\ message rec = ("System error: " ++ detail)%string) \/
   (exists e k,
      fault ev k = Some e /\
      S k = length (calls (run_script fuel ev)) /\
      s = Traceback e)) /\
  (exit_code s = Exit_code 0 ->
   exists pre rec,
     sink (calls (run_script fuel ev)) = pre ++ [rec] /\
     lvl rec = INFO /\ message rec = "Shutting down Trading System...").
Proof.
  intros Hres Hno.
  assert (Hways :
    (s = Exited 0 /\
     (exists k, fault ev k = Some KeyboardInterrupt) /\
     exists pre rec,
       sink (calls (run_script fuel ev)) = pre ++ [rec] /\
       lvl rec = INFO /\ message rec = "Shutting down Trading System...") \/
    (s = Exited 1 /\
     exists detail,
       (exists k, fault ev k = Some (Exception detail)) /\
       exists pre rec,
         sink (calls (run_script fuel ev)) = pre ++ [rec] /\
         lvl rec = ERROR /\ message rec = ("System error: " ++ detail)%string) \/
    (exists e k,
       fault ev k = Some e /\
       S k = length (calls (run_script fuel ev)) /\
       s = Traceback e)).
  { destruct (run_ended ev fuel s Hres) as [H | [H | (e & k & Hk & Hl & Hs)]];
      [left; exact H | right; left; exact H | right; right].
    exists e, k. split; [exact Hk|]. split; [exact Hl|].
    destruct e as [|code| |detail]; try exact Hs.
    exfalso. exact (Hno k code Hk). }
  split; [exact Hways|].
  intros Hzero.
  destruct Hways as [(_ & _ & Hlast) | [(-> & _) | (e & k & _ & _ & ->)]].
  - exact Hlast.
  - discriminate Hzero.
  - destruct e; discriminate Hzero.
Qed.

Lemma run_ends_three_ways_witness :
  exists pre rec,
    sink (calls (run_script 20 (raising_at 6 KeyboardInterrupt))) = pre ++ [rec] /\
    lvl rec = INFO /\ message rec = "Shutting down Trading System...".
Proof.
  destruct (run_ends_three_ways (raising_at 6 KeyboardInterrupt) 20 (Exited 0)) as [_ H].
  - reflexivity.
  - intros k code. cbn. destruct (Nat.eqb k 6); discriminate.
  - apply H. reflexivity.
Defined.

(** ** Exceptions outside the reach of the clauses *)

(** X2. An exception raised by the logging call of the startup notice,
    whatever its class, is outside the [try]: the process makes no other
    call (the loop is never entered), writes nothing to the log, and ends
    with the interpreter's status for that exception. For an [Exception]
    that is a traceback and exit status 1: the status of a failure that
    [main] handles, without the "System error" line. *)
Theorem startup_failure_is_not_handled ev e fuel :
  fault ev 0 = Some e ->
  1 <= fuel ->
  result (run_script fuel ev) = Some (interpreter_exit (inl e)) /\
  length (calls (run_script fuel ev)) = 1 /\
  sink (calls (run_script fuel ev)) = [] /\
  filter error_recordb (sink (calls (run_script fuel ev))) = [] /\
  (forall detail,
      e = Exception detail ->
      result (run_script fuel ev) = Some (Traceback (Exception detail)) /\
      option_map exit_code (result (run_script fuel ev)) = Some (Exit_code 1)).
Proof.
  intros F0 Hfuel. destruct fuel as [|fuel]; [lia|].
  rewrite run_script_unfold, F0. cbn [result calls length].
  assert (Hsink : sink [start_call ev] = []).
  { unfold start_call, log_call, outcome. rewrite F0. reflexivity. }
  rewrite Hsink.
  split; [reflexivity|]. split; [reflexivity|]. split; [reflexivity|].
  split; [reflexivity|].
  intros detail ->. split; reflexivity.
Qed.

Lemma startup_failure_is_not_handled_witness :
  result (run_script 5 (raising_at 0 (Exception "stream closed")))
    = Some (Traceback (Exception "stream closed")) /\
  sink (calls (run_script 5 (raising_at 0 (Exception "stream closed")))) = [].
Proof.
  destruct (startup_failure_is_not_handled (raising_at 0 (Exception "stream closed"))
              (Exception "stream closed") 5) as (H1 & _ & H3 & _ & _).
  - reflexivity.
  - lia.
  - split; [exact H1 | exact H3].
Defined.

(** X3. An exception raised inside an [except] clause is not offered to
    the clauses again. When a call of the loop raises an exception that a
    clause takes and the logging call of that clause raises in turn, the
    process ends on the second exception with the interpreter's status for
    it; neither a shutdown line nor a "System error" line is written, and
    the clause's logging call is the last call. *)
Theorem exception_while_handling_escapes ev k e e' fuel :
  1 <= k ->
  fault ev k = Some e ->
  caught e = true ->
  no_fault ev 0 k ->
  fault ev (S k) = Some e' ->
  2 * k + 2 <= fuel ->
  result (run_script fuel ev) = Some (interpreter_exit (inl e')) /\
  filter shutdown_recordb (sink (calls (run_script fuel ev))) = [] /\
  filter error_recordb (sink (calls (run_script fuel ev))) = [] /\
  length (calls (run_script fuel ev)) = k + 2.
Proof.
  intros Hk He Hc Hn Hs Hfuel.
  assert (F0 : fault ev 0 = None) by (apply (Hn 0); lia).
  destruct (run_script_loop_raises ev k _ fuel Hk He Hn Hfuel) as (lp & f & Hrun & Hlen & Hhb).
  rewrite Hrun.
  assert (Hsink : forall l msg,
             sink ((start_call ev :: lp) ++ [log_call ev (S (length lp)) l msg])
             = sink [start_call ev] ++ sink lp).
  { intros l msg. change (start_call ev :: lp) with ([start_call ev] ++ lp).
    rewrite !sink_app. unfold log_call, outcome. rewrite Hlen, Hs. cbn [sink].
    rewrite app_nil_r. reflexivity. }
  destruct e as [|code| |detail]; try discriminate Hc.
  - rewrite after_loop_KeyboardInterrupt. cbn [result calls length].
    rewrite Hsink, !filter_app, (start_call_sink ev F0).
    rewrite (filter_nothing shutdown_recordb is_heartbeat (sink lp) heartbeat_not_shutdown Hhb).
    rewrite (filter_nothing error_recordb is_heartbeat (sink lp) heartbeat_not_error Hhb).
    rewrite Hlen. unfold outcome. rewrite Hs, length_snoc. cbn [length]. rewrite Hlen.
    repeat split. lia.
  - rewrite after_loop_Exception. cbn [result calls length].
    rewrite Hsink, !filter_app, (start_call_sink ev F0).
    rewrite (filter_nothing shutdown_recordb is_heartbeat (sink lp) heartbeat_not_shutdown Hhb).
    rewrite (filter_nothing error_recordb is_heartbeat (sink lp) heartbeat_not_error Hhb).
    rewrite Hlen, Hs, length_snoc. cbn [length]. rewrite Hlen.
    repeat split. lia.
Qed.

Lemma exception_while_handling_escapes_witness :
  result (run_script 20 (raising_twice 3 KeyboardInterrupt 4 (Exception "stream closed")))
    = Some (Traceback (Exception "stream closed")) /\
  filter error_recordb
    (sink (calls (run_script 20
                    (raising_twice 3 KeyboardInterrupt 4 (Exception "stream closed"))))) = [].
Proof.
  destruct (exception_while_handling_escapes
              (raising_twice 3 KeyboardInterrupt 4 (Exception "stream closed"))
              3 KeyboardInterrupt (Exception "stream closed") 20) as (H1 & _ & H3 & _).
  - lia.
  - reflexivity.
  - reflexivity.
  - intros j Hj. cbn.
    destruct (Nat.eqb_spec j 3) as [E|E]; [lia|].
    destruct (Nat.eqb_spec j 4) as [E'|E']; [lia | reflexivity].
  - reflexivity.
  - lia.
  - split; [exact H1 | exact H3].
Defined.



(** ** Reads, heartbeats and sleeps in step *)

Lemma clock_reads_app a b : clock_reads (a ++ b) = clock_reads a + clock_reads b.
Proof.
  induction a as [|c a IH]; [reflexivity|].
  destruct c as [[e|now]|rec r|d r|key r|path data r|data r]; cbn; rewrite ?IH; reflexivity.
Qed.

Lemma heartbeat_lines_app a b : heartbeat_lines (a ++ b) = heartbeat_lines a + heartbeat_lines b.
Proof. unfold heartbeat_lines. rewrite sink_app, filter_app, length_app. reflexivity. Qed.

(** A logging call whose message is not a heartbeat changes none of the
    three counts. *)
Lemma in_lockstep_other_log tr rec r :
  heartbeat_recordb rec = false ->
  in_lockstep tr -> in_lockstep (tr ++ [Call_log rec r]).
Proof.
  intros Hrec (H1 & H2 & H3). unfold in_lockstep.
  rewrite sleeps_app, heartbeat_lines_app, clock_reads_app, length_app.
  assert (Hh : heartbeat_lines [Call_log rec r] = 0).
  { unfold heartbeat_lines. destruct r as [e|u]; cbn [sink filter]; [reflexivity|].
    rewrite Hrec. reflexivity. }
  rewrite Hh. cbn. lia.
Qed.

(** What as much of a turn as the fuel pays for adds to the counts. *)
Lemma turn_counts ev k n :
  let s := firstn n (iteration ev k) in
  length (sleeps s) <= heartbeat_lines s /\
  heartbeat_lines s <= clock_reads s /\
  clock_reads s <= 1 /\
  (Nat.leb (length (iteration ev k)) n = true -> iteration_result ev k = inr tt ->
   length (sleeps s) = 1).
Proof.
  cbv zeta. unfold iteration, iteration_result, log_call, outcome, heartbeat_lines.
  destruct (fault ev k) as [e0|].
  { destruct n as [|[|n]]; cbn; repeat split; try lia; discriminate. }
  destruct (fault ev (S k)) as [e1|].
  { destruct n as [|[|[|n]]]; cbn; repeat split; try lia; discriminate. }
  destruct (fault ev (S (S k))) as [e2|].
  { destruct n as [|[|[|[|n]]]]; cbn [firstn sink sleeps clock_reads filter length];
      rewrite ?heartbeat_message_recognised; cbn [length];
      repeat split; try lia; discriminate. }
  destruct n as [|[|[|[|n]]]]; cbn [firstn sink sleeps clock_reads filter length Nat.leb];
    rewrite ?heartbeat_message_recognised; cbn [length];
    repeat split; try lia; discriminate.
Qed.

Lemma health_check_body_lockstep ev fuel tr :
  at_loop_head tr ->
  in_lockstep (calls (exec fuel ev tr health_check_body)) /\
  (result (exec fuel ev tr health_check_body) = Some (inr tt) ->
   at_loop_head (calls (exec fuel ev tr health_check_body))).
Proof.
  intros [H1 H2]. rewrite exec_health_check_body. cbn [calls result].
  destruct (turn_counts ev (length tr) fuel) as (T1 & T2 & T3 & T4).
  unfold in_lockstep, at_loop_head.
  rewrite sleeps_app, heartbeat_lines_app, clock_reads_app, length_app.
  split; [lia|].
  destruct (Nat.leb (length (iteration ev (length tr))) fuel); [|discriminate].
  intros H. inversion H as [Hr]. specialize (T4 eq_refl Hr). lia.
Qed.

(** X5. At every moment of every run the clock readings that returned,
    the heartbeat lines written and the calls to sleep are in step: there
    are at least as many heartbeat lines as sleeps, at least as many
    readings as heartbeat lines, and at most one reading more than sleeps.
    So no sleep is begun without its heartbeat written, no heartbeat is
    written without its own reading, and no second reading or heartbeat
    comes before the sleep. *)
Theorem reads_heartbeats_sleeps_in_step ev fuel :
  length (sleeps (calls (run_script fuel ev)))
    <= length (filter heartbeat_recordb (sink (calls (run_script fuel ev)))) /\
  length (filter heartbeat_recordb (sink (calls (run_script fuel ev))))
    <= clock_reads (calls (run_script fuel ev)) /\
  clock_reads (calls (run_script fuel ev))
    <= S (length (sleeps (calls (run_script fuel ev)))).
Proof.
  change (in_lockstep (calls (run_script fuel ev))).
  assert (H0 : in_lockstep []) by (unfold in_lockstep; cbn; lia).
  destruct fuel as [|fuel]; [exact H0|].
  rewrite run_script_unfold.
  assert (Hstart : in_lockstep [start_call ev]).
  { unfold start_call, log_call. apply (in_lockstep_other_log []); [reflexivity | exact H0]. }
  destruct (fault ev 0) as [e|] eqn:F0; [exact Hstart|].
  apply (after_loop_invariant ev _ handler_message).
  - intros tr l msg Hm. apply in_lockstep_other_log. destruct Hm; reflexivity.
  - auto.
  - apply (while_True_rule ev at_loop_head in_lockstep).
    + intros f tr Htr. apply health_check_body_lockstep, Htr.
    + unfold at_loop_head, heartbeat_lines, start_call, log_call, outcome.
      rewrite F0. split; reflexivity.
Qed.

Example counts_of_a_quiet_run :
  length (sleeps (calls (run_script 11 quiet))) = 2 /\
  heartbeat_lines (calls (run_script 11 quiet)) = 3 /\
  clock_reads (calls (run_script 11 quiet)) = 3.
Proof. repeat split. Qed.

(** ** A heartbeat line and its timestamp *)

(** X6. The heartbeat message determines the timestamp: read back, the
    line of a valid datetime gives that datetime, so two valid datetimes
    with the same heartbeat message are the same. *)
Theorem heartbeat_message_determines_timestamp a b :
  valid_datetime a -> valid_datetime b ->
  heartbeat_message a = heartbeat_message b ->
  a = b /\
  embedded_timestamp (mk_LogRecord "" "__main__" INFO (heartbeat_message a)) = Some a.
Proof.
  intros Ha Hb Heq.
  pose proof (embedded_timestamp_heartbeat "" "__main__" INFO a Ha) as Ea.
  pose proof (embedded_timestamp_heartbeat "" "__main__" INFO b Hb) as Eb.
  split; [|exact Ea]. rewrite Heq in Ea. rewrite Ea in Eb. inversion Eb. reflexivity.
Qed.

Lemma heartbeat_message_determines_timestamp_witness :
  embedded_timestamp
    (mk_LogRecord "" "__main__" INFO (heartbeat_message (mk_datetime 2024 2 29 23 59 59 0)))
  = Some (mk_datetime 2024 2 29 23 59 59 0).
Proof.
  destruct (heartbeat_message_determines_timestamp
              (mk_datetime 2024 2 29 23 59 59 0) (mk_datetime 2024 2 29 23 59 59 0))
    as [_ H].
  - unfold valid_datetime. cbn. lia.
  - unfold valid_datetime. cbn. lia.
  - reflexivity.
  - exact H.
Defined.

(** ** A [KeyboardInterrupt] that reaches the clause *)

(** X7. What the first [except] clause does when a [KeyboardInterrupt]
    does reach it. When [KeyboardInterrupt] is raised by a call the
    heartbeat loop makes (call number [k >= 1], inside the [try]; not by a
    SIGINT, which the runner turns into a cancellation) and is the only
    exception of the run (none before it, none while the shutdown notice is
    logged), then with enough fuel the process ends with exit code 0, its
    log holds exactly one shutdown line, that line is the last one (no
    heartbeat follows it), and the loop made no call after the interrupted
    one: the only later call is the one that logs the shutdown notice. *)
Theorem keyboard_interrupt_in_loop_shuts_down ev k fuel :
  1 <= k ->
  fault ev k = Some KeyboardInterrupt ->
  no_fault ev 0 k ->
  fault ev (S k) = None ->
  2 * k + 2 <= fuel ->
  result (run_script fuel ev) = Some (Exited 0) /\
  length (filter shutdown_recordb (sink (calls (run_script fuel ev)))) = 1 /\
  (exists pre rec,
      sink (calls (run_script fuel ev)) = pre ++ [rec] /\
      lvl rec = INFO /\ message rec = shutdown_message) /\
  (exists before,
      calls (run_script fuel ev) = before ++ [log_call ev (S k) INFO shutdown_message] /\
      length before = S k).
Proof.
  intros Hk He Hn Hs Hfuel.
  assert (F0 : fault ev 0 = None) by (apply (Hn 0); lia).
  destruct (run_script_loop_raises ev k _ fuel Hk He Hn Hfuel) as (lp & f & Hrun & Hlen & Hhb).
  rewrite Hrun, after_loop_KeyboardInterrupt. cbn [result calls length].
  rewrite Hlen. unfold outcome. rewrite Hs.
  split; [reflexivity|]. split; [|split].
  - change (start_call ev :: lp) with ([start_call ev] ++ lp).
    rewrite !sink_app, !filter_app, (start_call_sink ev F0).
    rewrite (filter_nothing shutdown_recordb is_heartbeat (sink lp) heartbeat_not_shutdown Hhb).
    unfold log_call, outcome. rewrite Hs. reflexivity.
  - exists (sink (start_call ev :: lp)), (mk_LogRecord (log_time ev (S k)) __name__ INFO shutdown_message).
    rewrite sink_app. unfold log_call, outcome. rewrite Hs. cbn. auto.
  - exists (start_call ev :: lp). cbn [length]. rewrite Hlen. auto.
Qed.

Lemma keyboard_interrupt_in_loop_shuts_down_witness :
  result (run_script 20 (raising_at 6 KeyboardInterrupt)) = Some (Exited 0) /\
  length (filter shutdown_recordb
            (sink (calls (run_script 20 (raising_at 6 KeyboardInterrupt))))) = 1.
Proof.
  destruct (keyboard_interrupt_in_loop_shuts_down (raising_at 6 KeyboardInterrupt) 6 20)
    as (H1 & H2 & _).
  - lia.
  - reflexivity.
  - intros j Hj. cbn. destruct (Nat.eqb_spec j 6) as [E|E]; [lia | reflexivity].
  - reflexivity.
  - lia.
  - split; [exact H1 | exact H2].
Defined.

(** ** The process without a signal *)

